(** * Semantic-model resolution core of the semantic-view optimization scripts

    A shallow embedding of
    - [semantic_view_sql_utils.py]: the identifier mappings, the
      case-insensitive lookups and the table and column rewrite passes;
    - [relationship_creation.py]: [infer_relationship_type] and the
      constraint-set helpers it uses, [get_table], [validate_columns_exist],
      [get_physical_table_fqn] and [get_physical_column_name];
    - [infer_primary_keys.py]: [parse_table_name], the null-rate reading of
      [get_null_percentage], the key-candidate scoring filter, the
      single-column / composite uniqueness tests, [rank_candidates] and the
      candidate logic of [infer_primary_keys];
    - [semantic_view_get.py] / [semantic_view_set.py]: the callers
      [_resolve_sql] and [_translate_vqr_sql] of the rewrite functions.

    Python dicts are modelled as insertion-ordered association lists
    ([dict V]): assignment updates an existing key in place and appends a
    new key at the end, so iteration order (used by "first match" scans in
    the source) is the one Python has. Python's truthiness of strings is
    [truthy s] (non-empty). Python's [str.lower]/[str.upper] are modelled on
    ASCII letters. *)

From Stdlib Require Import Bool Arith List String Ascii ZArith QArith Lia.
From Stdlib Require Import Permutation Sorted.
Import ListNotations.
Open Scope nat_scope.
Open Scope string_scope.
Set Warnings "-register-all".

(* ------------------------------------------------------------------ *)
(** ** Strings *)

Definition truthy (s : string) : bool := negb (String.eqb s "").

Definition ascii_lower (c : ascii) : ascii :=
  let n := nat_of_ascii c in
  if (65 <=? n)%nat && (n <=? 90)%nat then ascii_of_nat (n + 32)%nat else c.

Definition ascii_upper (c : ascii) : ascii :=
  let n := nat_of_ascii c in
  if (97 <=? n)%nat && (n <=? 122)%nat then ascii_of_nat (n - 32)%nat else c.

(** [s.lower()] on ASCII letters; Python's Unicode mapping differs only
    outside 7-bit ASCII. *)
Fixpoint str_lower (s : string) : string :=
  match s with
  | EmptyString => EmptyString
  | String c s' => String (ascii_lower c) (str_lower s')
  end.

(** [s.upper()] on ASCII letters; Python's Unicode mapping differs only
    outside 7-bit ASCII (the German sharp s upper-cases to [SS]). *)
Fixpoint str_upper (s : string) : string :=
  match s with
  | EmptyString => EmptyString
  | String c s' => String (ascii_upper c) (str_upper s')
  end.

Fixpoint starts_with (p s : string) : bool :=
  match p, s with
  | EmptyString, _ => true
  | String a p', String b s' => Ascii.eqb a b && starts_with p' s'
  | String _ _, EmptyString => false
  end.

(** Python's [needle in hay] on strings. *)
Fixpoint contains (needle hay : string) : bool :=
  starts_with needle hay ||
  match hay with
  | EmptyString => false
  | String _ hay' => contains needle hay'
  end.

Fixpoint str_rev (s : string) : string :=
  match s with
  | EmptyString => EmptyString
  | String c s' => str_rev s' ++ String c EmptyString
  end.

(** [s.endswith(p)] *)
Definition ends_with (p s : string) : bool := starts_with (str_rev p) (str_rev s).

(** [s.split(".")]: the pieces between dots, always at least one. *)
Fixpoint split_dot_aux (cur : string) (s : string) : list string :=
  match s with
  | EmptyString => [cur]
  | String c s' =>
      if Ascii.eqb c "." then cur :: split_dot_aux EmptyString s'
      else split_dot_aux (cur ++ String c EmptyString) s'
  end.

Definition split_dot (s : string) : list string := split_dot_aux EmptyString s.

Definition mem_str (x : string) (l : list string) : bool :=
  existsb (String.eqb x) l.

(* ------------------------------------------------------------------ *)
(** ** Python dicts with string keys: insertion-ordered association lists *)

Definition dict (V : Type) := list (string * V).

(** [d.get(k)] / [k in d] *)
Fixpoint dict_get {V} (k : string) (d : dict V) : option V :=
  match d with
  | [] => None
  | (k', v) :: d' => if String.eqb k k' then Some v else dict_get k d'
  end.

(** [d[k] = v]: an existing key keeps its position, a new key is appended. *)
Fixpoint dict_set {V} (k : string) (v : V) (d : dict V) : dict V :=
  match d with
  | [] => [(k, v)]
  | (k', v') :: d' =>
      if String.eqb k k' then (k', v) :: d' else (k', v') :: dict_set k v d'
  end.

(** A loop [for x in xs: if entry(x) is (k, v): d[k] = v]. *)
Definition insert_entries {A V} (entry : A -> option (string * V))
    (xs : list A) (d : dict V) : dict V :=
  fold_left (fun d x => match entry x with
                        | Some (k, v) => dict_set k v d
                        | None => d
                        end) xs d.

(* ------------------------------------------------------------------ *)
(** ** The semantic-model document *)

(** [base_table: {database, schema, table}]; a missing field is [""]. *)
Record BaseTable := {
  database : string;
  schema : string;
  table : string
}.

(** A column entry of a section ([dimensions], [facts], ...); a missing
    [name] or [expr] is [""]. *)
Record ColumnEntry := {
  ce_name : string;
  ce_expr : string
}.

(** A table of the document. [base_table = None] models a missing or empty
    [base_table] dict; [primary_key = None] a missing or empty
    [primary_key]; [Some cols] its [columns] list. [unique_keys] lists the
    [columns] of each unique key. *)
Record SemanticTable := {
  name : string;
  base_table : option BaseTable;
  primary_key : option (list string);
  unique_keys : list (list string);
  dimensions : list ColumnEntry;
  time_dimensions : list ColumnEntry;
  measures : list ColumnEntry;
  facts : list ColumnEntry;
  metrics : list ColumnEntry
}.

Record Document := { tables : list SemanticTable }.

(* ------------------------------------------------------------------ *)
(** ** Table mapping builders ([build_logical_to_physical_mapping] and
       [build_physical_to_logical_mapping]) *)

(** The body shared by both builders: [Some physical_fqn] exactly when
    [logical_name and base_table] and [database and schema and table_name]
    hold. *)
Definition table_physical_fqn (t : SemanticTable) : option string :=
  let logical_name := name t in
  match base_table t with
  | Some bt =>
      if truthy logical_name then
        if truthy (database bt) && truthy (schema bt) && truthy (table bt)
        then Some (database bt ++ "." ++ schema bt ++ "." ++ table bt)
        else None
      else None
  | None => None
  end.

Definition build_logical_to_physical_mapping (d : Document) : dict string :=
  insert_entries
    (fun t => match table_physical_fqn t with
              | Some physical_fqn => Some (name t, physical_fqn)
              | None => None
              end) (tables d) [].

Definition build_physical_to_logical_mapping (d : Document) : dict string :=
  insert_entries
    (fun t => match table_physical_fqn t with
              | Some physical_fqn => Some (physical_fqn, name t)
              | None => None
              end) (tables d) [].

(* ------------------------------------------------------------------ *)
(** ** Column mapping builders *)

Definition column_sections (t : SemanticTable) : list (list ColumnEntry) :=
  [dimensions t; time_dimensions t; measures t; facts t; metrics t].

(** [table_columns] of [build_logical_to_physical_column_mapping]:
    [table_columns[col_name] = col_expr]. *)
Definition table_columns_l2p (t : SemanticTable) : dict string :=
  insert_entries
    (fun c => if truthy (ce_name c) && truthy (ce_expr c)
              then Some (ce_name c, ce_expr c) else None)
    (List.concat (column_sections t)) [].

(** [table_columns] of [build_physical_to_logical_column_mapping]:
    [table_columns[col_expr] = col_name]. *)
Definition table_columns_p2l (t : SemanticTable) : dict string :=
  insert_entries
    (fun c => if truthy (ce_name c) && truthy (ce_expr c)
              then Some (ce_expr c, ce_name c) else None)
    (List.concat (column_sections t)) [].

Definition nonempty {V} (d : dict V) : bool :=
  match d with [] => false | _ => true end.

Definition build_logical_to_physical_column_mapping (d : Document)
    : dict (dict string) :=
  insert_entries
    (fun t => if truthy (name t) then
                let table_columns := table_columns_l2p t in
                if nonempty table_columns then Some (name t, table_columns)
                else None
              else None) (tables d) [].

Definition build_physical_to_logical_column_mapping (d : Document)
    : dict (dict string) :=
  insert_entries
    (fun t => if truthy (name t) then
                let table_columns := table_columns_p2l t in
                if nonempty table_columns then Some (name t, table_columns)
                else None
              else None) (tables d) [].

(* ------------------------------------------------------------------ *)
(** ** Case-insensitive lookups *)

Definition case_insensitive_lookup (key : string) (mapping : dict string)
    : option string :=
  let fix go (variants : list string) :=
    match variants with
    | [] => None
    | v :: vs => match dict_get v mapping with
                 | Some x => Some x
                 | None => go vs
                 end
    end in
  go [key; str_lower key; str_upper key].

Definition case_insensitive_column_lookup (column_name : string)
    (columns_dict : dict string) : option string :=
  let fix go (variants : list string) :=
    match variants with
    | [] => None
    | v :: vs => match dict_get v columns_dict with
                 | Some x => Some x
                 | None => go vs
                 end
    end in
  go [column_name; str_lower column_name; str_upper column_name].

(** Python truthiness of the [str | None] results. *)
Definition truthy_opt (o : option string) : bool :=
  match o with Some s => truthy s | None => false end.

(* ------------------------------------------------------------------ *)
(** ** Relationship inference ([relationship_creation.py]) *)

(** Python sets of lower-cased column names are lists; only membership and
    [issubset] are used on them. *)
Definition lower_set (cols : list string) : list string := map str_lower cols.

Definition issubset (s t : list string) : bool :=
  forallb (fun c => mem_str c t) s.

Definition get_primary_key_columns (t : SemanticTable) : list string :=
  match primary_key t with
  | Some columns => lower_set columns
  | None => []
  end.

Definition get_unique_key_columns (t : SemanticTable) : list (list string) :=
  fold_left (fun acc columns =>
               match columns with
               | [] => acc
               | _ => (acc ++ [lower_set columns])%list
               end) (unique_keys t) [].

Definition get_all_constraint_sets (t : SemanticTable) : list (list string) :=
  let pk_columns := get_primary_key_columns t in
  ((match pk_columns with [] => [] | _ => [pk_columns] end)
    ++ get_unique_key_columns t)%list.

Definition has_constraint_on_columns (constraint_sets : list (list string))
    (join_columns : list string) : bool :=
  existsb (fun constraint_set => issubset constraint_set join_columns)
    constraint_sets.

Record RelationshipColumn := {
  left_column : string;
  right_column : string
}.

Record Relationship := {
  rel_name : string;
  left_table : string;
  right_table : string;
  join_type : string;
  relationship_type : string;
  relationship_columns : list RelationshipColumn
}.

Record ErrorInfo := {
  error : string;
  message : string;
  err_left_table : string;
  err_right_table : string;
  left_columns : list string;
  right_columns : list string;
  suggestion : string
}.

(** The dict returned next to the relationship type: a relationship or the
    error info of a rejection. *)
Inductive RelPayload :=
| PRelationship (r : Relationship)
| PError (e : ErrorInfo).

Definition infer_relationship_type (left_tbl right_tbl : SemanticTable)
    (left_cols right_cols : list string) : string * RelPayload :=
  let left_constraint_sets := get_all_constraint_sets left_tbl in
  let right_constraint_sets := get_all_constraint_sets right_tbl in
  let left_join_cols := lower_set left_cols in
  let right_join_cols := lower_set right_cols in
  let left_has_constraint :=
    has_constraint_on_columns left_constraint_sets left_join_cols in
  let right_has_constraint :=
    has_constraint_on_columns right_constraint_sets right_join_cols in
  let left_table_name := name left_tbl in
  let right_table_name := name right_tbl in
  if left_has_constraint && right_has_constraint then
    ("one_to_one",
     PRelationship {|
       rel_name := left_table_name ++ "_TO_" ++ right_table_name;
       left_table := left_table_name;
       right_table := right_table_name;
       join_type := "inner";
       relationship_type := "one_to_one";
       relationship_columns :=
         map (fun '(lc, rc) => {| left_column := lc; right_column := rc |})
           (combine left_cols right_cols) |})
  else if right_has_constraint then
    ("many_to_one",
     PRelationship {|
       rel_name := left_table_name ++ "_TO_" ++ right_table_name;
       left_table := left_table_name;
       right_table := right_table_name;
       join_type := "inner";
       relationship_type := "many_to_one";
       relationship_columns :=
         map (fun '(lc, rc) => {| left_column := lc; right_column := rc |})
           (combine left_cols right_cols) |})
  else if left_has_constraint then
    ("many_to_one (swapped)",
     PRelationship {|
       rel_name := right_table_name ++ "_TO_" ++ left_table_name;
       left_table := right_table_name;
       right_table := left_table_name;
       join_type := "inner";
       relationship_type := "many_to_one";
       relationship_columns :=
         map (fun '(lc, rc) => {| left_column := rc; right_column := lc |})
           (combine left_cols right_cols) |})
  else
    ("many_to_many (rejected)",
     PError {|
       error := "many_to_many";
       message := "Relationship is many_to_many, which is not supported. Neither table has a primary key or unique key on the join columns.";
       err_left_table := left_table_name;
       err_right_table := right_table_name;
       left_columns := left_cols;
       right_columns := right_cols;
       suggestion := "Add a primary key or unique key to one of the tables on the join columns, or use a junction table." |}).

(* ------------------------------------------------------------------ *)
(** ** Key inference ([infer_primary_keys.py]) *)

(** One entry of [columns_metadata]. *)
Record ColumnMeta := {
  cm_name : string;
  data_type : string;
  nullable : bool
}.

Definition any_in (keywords : list string) (s : string) : bool :=
  existsb (fun keyword => contains keyword s) keywords.

(** The heuristic [score] computed by [filter_key_candidate_columns]
    before the null-rate query. *)
Definition key_candidate_score (col_meta : ColumnMeta) : Z :=
  let col_name := str_upper (cm_name col_meta) in
  let dt := str_upper (data_type col_meta) in
  let s0 := 0%Z in
  let s1 := if contains "_ID" col_name || ends_with "ID" col_name
            then (s0 + 3)%Z else s0 in
  let s2 := if contains "_KEY" col_name || ends_with "KEY" col_name
            then (s1 + 3)%Z else s1 in
  let s3 := if any_in ["DATE"; "TIME"; "TIMESTAMP"; "DS"; "DT"] col_name
            then (s2 + 2)%Z else s2 in
  let s4 := if contains "NUMBER" dt || contains "INT" dt
            then (s3 + 1)%Z else s3 in
  let s5 := if contains "DATE" dt || contains "TIME" dt || contains "TIMESTAMP" dt
            then (s4 + 2)%Z else s4 in
  let s6 := if contains "VARCHAR" dt || contains "TEXT" dt then
              if any_in ["NAME"; "DESCRIPTION"; "COMMENT"; "TEXT"; "CONTENT"]
                   col_name
              then (s5 - 2)%Z else (s5 + 1)%Z
            else s5 in
  let s7 := if contains "FLOAT" dt || contains "DOUBLE" dt || contains "DECIMAL" dt
            then (s6 - 1)%Z else s6 in
  if negb (nullable col_meta) then (s7 + 1)%Z else s7.

(** [filter_key_candidate_columns]: the candidates, and the columns for
    which [get_null_percentage] was queried, in query order. The sampled
    null rate of each column is the oracle [get_null_percentage]; Python's
    float comparison [null_pct > 0.1] is read on rationals. *)
Fixpoint filter_key_candidate_columns (get_null_percentage : string -> Q)
    (columns_metadata : list ColumnMeta) : list string * list string :=
  match columns_metadata with
  | [] => ([], [])
  | col_meta :: rest =>
      let '(candidates, queried) :=
        filter_key_candidate_columns get_null_percentage rest in
      let col_name := cm_name col_meta in
      let score := key_candidate_score col_meta in
      if (2 <=? score)%Z then
        let null_pct := get_null_percentage col_name in
        let score' := if negb (Qle_bool null_pct (1 # 10))
                      then (score - 2)%Z else score in
        (if (2 <=? score')%Z then col_name :: candidates else candidates,
         col_name :: queried)
      else (candidates, queried)
  end.

Record KeyCandidate := {
  kc_columns : list string;
  distinct_count : nat;
  kc_row_count : nat;
  uniqueness_percentage : Q;
  kc_type : string
}.

(** The uniqueness test shared by both finders: with [row_count > 0],
    [distinct_count / row_count >= uniqueness_threshold]. *)
Definition qualifies (distinct_count row_count : nat) (uniqueness_threshold : Q)
    : bool :=
  (0 <? row_count)%nat &&
  Qle_bool uniqueness_threshold
    (inject_Z (Z.of_nat distinct_count) / inject_Z (Z.of_nat row_count)).

(** The candidate record. [uniqueness_percentage] is kept exact, while the
    source stores the float [round(pct * 100, 2)], which [rank_candidates]
    then sorts on: candidates whose percentages differ below the second
    decimal tie in the source but not here. *)
Definition make_candidate (cols : list string) (d row_count : nat) (ty : string)
    : KeyCandidate :=
  {| kc_columns := cols; distinct_count := d; kc_row_count := row_count;
     uniqueness_percentage :=
       inject_Z (Z.of_nat d) / inject_Z (Z.of_nat row_count) * inject_Z 100;
     kc_type := ty |}.

(** [find_single_column_keys]; [get_column_cardinality] is the sampled
    distinct count of each column (0 when its query fails). *)
Definition find_single_column_keys (get_column_cardinality : string -> nat)
    (columns : list string) (row_count : nat) (uniqueness_threshold : Q)
    : list KeyCandidate :=
  fold_left (fun candidates column =>
      let distinct_count := get_column_cardinality column in
      if qualifies distinct_count row_count uniqueness_threshold
      then (candidates ++ [make_candidate [column] distinct_count row_count
                                          "single_column"])%list
      else candidates) columns [].

(** [itertools.combinations(xs, k)], in its lexicographic order. *)
Fixpoint combinations {A} (xs : list A) (k : nat) : list (list A) :=
  match k with
  | O => [[]]
  | S k' =>
      match xs with
      | [] => []
      | x :: xs' => (map (cons x) (combinations xs' k') ++ combinations xs' k)%list
      end
  end.

Fixpoint nat_to_string_aux (fuel n : nat) (acc : string) : string :=
  match fuel with
  | O => acc
  | S fuel' =>
      let acc' := String (ascii_of_nat (48 + n mod 10)) acc in
      if (n <? 10)%nat then acc' else nat_to_string_aux fuel' (n / 10) acc'
  end.

Definition nat_to_string (n : nat) : string := nat_to_string_aux (S n) n "".

(** [find_composite_keys]: for [num_cols] in [range(2, max_cols + 1)];
    [get_composite_cardinality] is the sampled distinct count of each
    combination. *)
Definition find_composite_keys (get_composite_cardinality : list string -> nat)
    (columns : list string) (row_count max_cols : nat) (uniqueness_threshold : Q)
    : list KeyCandidate :=
  fold_left (fun candidates num_cols =>
      fold_left (fun candidates combo =>
          let distinct_count := get_composite_cardinality combo in
          if qualifies distinct_count row_count uniqueness_threshold
          then (candidates ++ [make_candidate combo distinct_count row_count
                     (nat_to_string num_cols ++ "_column_composite")])%list
          else candidates)
        (combinations columns num_cols) candidates)
    (seq 2 (max_cols - 1)) [].

(* ------------------------------------------------------------------ *)
(** ** The parsed SQL statement

    The fragment of sqlglot's syntax tree the rewrite passes touch: [Table]
    nodes (name [this], [db], [catalog], [alias]; [""] when absent),
    [Column] nodes (table qualifier, name), and [Select] nodes with their
    [WITH] clause, select list, [FROM] table, joins and [WHERE]. *)

Record TableNode := {
  t_this : string;
  t_db : string;
  t_catalog : string;
  t_alias : string
}.

Inductive Expr :=
| EColumn (tbl : string) (col : string)
| ELit (s : string)
| EBinary (op : string) (l r : Expr)
| EAlias (e : Expr) (alias : string).

Inductive Query :=
| QSelect (ctes : list (string * Query)) (exprs : list Expr)
          (from : option TableNode) (joins : list (TableNode * option Expr))
          (where_ : option Expr).

Definition map_option {A B} (f : A -> B) (o : option A) : option B :=
  match o with Some a => Some (f a) | None => None end.

(** [parsed.find_all(exp.CTE)] restricted to the aliases: every CTE of the
    statement, nested ones included. *)
Fixpoint cte_aliases (q : Query) : list string :=
  match q with
  | QSelect ctes _ _ _ _ =>
      flat_map (fun '(alias, body) => alias :: cte_aliases body) ctes
  end.

Definition collect_cte_names (q : Query) : list string :=
  filter truthy (cte_aliases q).

(** [parsed.find_all(exp.Table)], in pre-order: CTE bodies, [FROM], joins. *)
Fixpoint table_nodes (q : Query) : list TableNode :=
  match q with
  | QSelect ctes _ from joins _ =>
      (flat_map (fun '(_, body) => table_nodes body) ctes
       ++ match from with Some t => [t] | None => [] end
       ++ map fst joins)%list
  end.

(** Apply [f] to every [Table] node in place. *)
Fixpoint map_tables (f : TableNode -> TableNode) (q : Query) : Query :=
  match q with
  | QSelect ctes exprs from joins where_ =>
      QSelect (map (fun '(alias, body) => (alias, map_tables f body)) ctes)
        exprs (map_option f from)
        (map (fun '(t, on) => (f t, on)) joins) where_
  end.

Fixpoint map_expr_columns (g : string -> string -> Expr) (e : Expr) : Expr :=
  match e with
  | EColumn tbl col => g tbl col
  | ELit s => ELit s
  | EBinary op l r => EBinary op (map_expr_columns g l) (map_expr_columns g r)
  | EAlias e' a => EAlias (map_expr_columns g e') a
  end.

(** Replace every [Column] node by [g from tbl col], where [from] is the
    [FROM] table of the closest enclosing [Select] (the parent walk of
    [is_referencing_cte]). *)
Fixpoint map_columns (g : option TableNode -> string -> string -> Expr)
    (q : Query) : Query :=
  match q with
  | QSelect ctes exprs from joins where_ =>
      QSelect (map (fun '(alias, body) => (alias, map_columns g body)) ctes)
        (map (map_expr_columns (g from)) exprs) from
        (map (fun '(t, on) => (t, map_option (map_expr_columns (g from)) on))
           joins)
        (map_option (map_expr_columns (g from)) where_)
  end.

(* ------------------------------------------------------------------ *)
(** ** Table name resolution *)

Definition is_already_qualified (t : TableNode) : bool :=
  truthy (t_catalog t) && truthy (t_db t).

Definition build_fqn_from_table_node (t : TableNode) : string :=
  if truthy (t_catalog t) && truthy (t_db t) && truthy (t_this t) then
    t_catalog t ++ "." ++ t_db t ++ "." ++ t_this t
  else if truthy (t_db t) && truthy (t_this t) then t_db t ++ "." ++ t_this t
  else if truthy (t_this t) then t_this t
  else "".

(** The loop body of [resolve_logical_to_physical_table_names]. *)
Definition l2p_table_node (cte_names : list string) (mapping : dict string)
    (t : TableNode) : TableNode :=
  let table_name := t_this t in
  if negb (truthy table_name) || mem_str table_name cte_names then t
  else if is_already_qualified t then t
  else
    let physical_fqn := case_insensitive_lookup table_name mapping in
    match physical_fqn with
    | Some fqn =>
        if truthy fqn then
          match split_dot fqn with
          | [p0; p1; p2] =>
              {| t_this := p2; t_db := p1; t_catalog := p0; t_alias := t_alias t |}
          | _ => t
          end
        else t
    | None => t
    end.

Definition resolve_logical_to_physical_table_names_ast (q : Query)
    (mapping : dict string) : Query :=
  map_tables (l2p_table_node (collect_cte_names q) mapping) q.

(** The loop body of [resolve_physical_to_logical_table_names]. *)
Definition p2l_table_node (cte_names : list string) (reverse_mapping : dict string)
    (t : TableNode) : TableNode :=
  let table_name := t_this t in
  if negb (truthy table_name) || mem_str table_name cte_names then t
  else
    let fqn := build_fqn_from_table_node t in
    if negb (truthy fqn) then t
    else
      match case_insensitive_lookup fqn reverse_mapping with
      | Some logical_name =>
          if truthy logical_name then
            {| t_this := logical_name; t_db := ""; t_catalog := "";
               t_alias := t_alias t |}
          else t
      | None => t
      end.

Definition resolve_physical_to_logical_table_names_ast (q : Query)
    (reverse_mapping : dict string) : Query :=
  map_tables (p2l_table_node (collect_cte_names q) reverse_mapping) q.

(* ------------------------------------------------------------------ *)
(** ** Column name resolution *)

Definition is_ident_char (c : ascii) : bool :=
  let n := nat_of_ascii c in
  ((48 <=? n)%nat && (n <=? 57)%nat) || ((65 <=? n)%nat && (n <=? 90)%nat)
  || ((97 <=? n)%nat && (n <=? 122)%nat) || (n =? 95)%nat || (n =? 36)%nat.

Fixpoint all_ident_chars (s : string) : bool :=
  match s with
  | EmptyString => true
  | String c s' => is_ident_char c && all_ident_chars s'
  end.

Definition is_identifier (s : string) : bool := truthy s && all_ident_chars s.

(** [sqlglot.parse_one(physical_expr, dialect="snowflake", into=exp.Column)]
    on the inputs this development uses: a plain or dotted identifier parses
    to a [Column]; any other text is taken to raise (the caller then keeps
    the node). sqlglot itself also returns function calls, literals and
    subqueries (a [Sum] for [SUM(amount)]), which the caller substitutes;
    those expressions are outside this model. *)
Definition parse_column_expr (s : string) : option Expr :=
  match split_dot s with
  | [c] => if is_identifier c then Some (EColumn "" c) else None
  | [t; c] => if is_identifier t && is_identifier c then Some (EColumn t c)
              else None
  | _ => None
  end.

(** [reverse_table_mapping] of [resolve_logical_to_physical_column_names]
    (and, read physical→logical, [logical_table_mapping] of
    [resolve_physical_to_logical_column_names]): each full name, each
    logical name and each bare physical table name maps to the logical
    name. *)
Definition build_table_name_index (pairs : list (string * string))
    : dict string :=
  fold_left (fun m '(physical, logical) =>
      let m1 := dict_set physical logical m in
      let m2 := dict_set logical logical m1 in
      match split_dot physical with
      | [_; _; p2] => dict_set p2 logical m2
      | _ => m2
      end) pairs [].

(** [alias_to_table]: the alias of every non-CTE [Table] node, visited in
    the order of [table_nodes] (pre-order); sqlglot's [find_all] is
    breadth-first, so an alias bound twice may resolve differently. *)
Definition build_alias_to_table (cte_names : list string) (q : Query)
    : dict string :=
  fold_left (fun m t =>
      let table_name := t_this t in
      if truthy table_name && negb (mem_str table_name cte_names) then
        if truthy (t_alias t) then dict_set (t_alias t) table_name m else m
      else m) (table_nodes q) [].

(** [is_referencing_cte]: an unqualified column follows the statement's
    [FROM] table, read from [args["from"]] as sqlglot versions that store
    it there do (later versions store it under [from_], where this test
    never finds a CTE). *)
Definition is_referencing_cte (cte_names : list string)
    (from : option TableNode) (table_ref : string) : bool :=
  if negb (truthy table_ref) then
    match from with
    | Some from_table => mem_str (t_this from_table) cte_names
    | None => false
    end
  else mem_str table_ref cte_names.

Fixpoint first_key_match (actual_table : string) (m : dict string)
    : option string :=
  match m with
  | [] => None
  | (key, v) :: m' =>
      if String.eqb (str_upper key) (str_upper actual_table) then Some v
      else first_key_match actual_table m'
  end.

Fixpoint first_owner (col_name : string) (column_mapping : dict (dict string))
    : option string :=
  match column_mapping with
  | [] => None
  | (tbl_name, tbl_columns) :: rest =>
      if truthy_opt (case_insensitive_column_lookup col_name tbl_columns)
      then Some tbl_name else first_owner col_name rest
  end.

(** [logical_table] of a column node that is not skipped as a CTE
    reference ([None] also for the [continue] on a CTE-named qualifier). *)
Definition column_logical_table (cte_names : list string)
    (alias_to_table table_index : dict string)
    (column_mapping : dict (dict string)) (table_ref col_name : string)
    : option string :=
  if truthy table_ref then
    if mem_str table_ref cte_names then None
    else
      let actual_table :=
        match dict_get table_ref alias_to_table with
        | Some a => a | None => table_ref end in
      let logical_table := dict_get actual_table table_index in
      if truthy_opt logical_table then logical_table
      else first_key_match actual_table table_index
  else first_owner col_name column_mapping.

(** The loop body of [resolve_logical_to_physical_column_names]. *)
Definition l2p_column_node (cte_names : list string)
    (alias_to_table reverse_table_mapping : dict string)
    (column_mapping : dict (dict string))
    (from : option TableNode) (table_ref col_name : string) : Expr :=
  let node := EColumn table_ref col_name in
  if negb (truthy col_name) || is_referencing_cte cte_names from table_ref
  then node
  else
    match column_logical_table cte_names alias_to_table reverse_table_mapping
            column_mapping table_ref col_name with
    | Some logical_table =>
        match (if truthy logical_table then dict_get logical_table column_mapping
               else None) with
        | Some table_columns =>
            match case_insensitive_column_lookup col_name table_columns with
            | Some physical_expr =>
                if truthy physical_expr then
                  match parse_column_expr physical_expr with
                  | Some physical_parsed => physical_parsed
                  | None => node
                  end
                else node
            | None => node
            end
        | None => node
        end
    | None => node
    end.

Definition resolve_logical_to_physical_column_names_ast (q : Query)
    (table_mapping : dict string) (column_mapping : dict (dict string))
    : Query :=
  let cte_names := collect_cte_names q in
  let reverse_table_mapping :=
    build_table_name_index (map (fun '(l, p) => (p, l)) table_mapping) in
  let alias_to_table := build_alias_to_table cte_names q in
  map_columns
    (l2p_column_node cte_names alias_to_table reverse_table_mapping
       column_mapping) q.

(** The loop body of [resolve_physical_to_logical_column_names]. The
    source rebuilds the column with only its table qualifier; [Expr] has no
    schema or database part, so 3- and 4-part column references are outside
    this model. *)
Definition p2l_column_node (cte_names : list string)
    (alias_to_table logical_table_mapping : dict string)
    (column_mapping : dict (dict string))
    (from : option TableNode) (table_ref col_name : string) : Expr :=
  let node := EColumn table_ref col_name in
  if negb (truthy col_name) || is_referencing_cte cte_names from table_ref
  then node
  else
    match column_logical_table cte_names alias_to_table logical_table_mapping
            column_mapping table_ref col_name with
    | Some logical_table =>
        match (if truthy logical_table then dict_get logical_table column_mapping
               else None) with
        | Some table_columns =>
            match case_insensitive_column_lookup col_name table_columns with
            | Some logical_name =>
                if truthy logical_name then
                  EColumn (if truthy table_ref then table_ref else "") logical_name
                else node
            | None => node
            end
        | None => node
        end
    | None => node
    end.

Definition resolve_physical_to_logical_column_names_ast (q : Query)
    (table_mapping : dict string) (column_mapping : dict (dict string))
    : Query :=
  let cte_names := collect_cte_names q in
  let logical_table_mapping := build_table_name_index table_mapping in
  let alias_to_table := build_alias_to_table cte_names q in
  map_columns
    (p2l_column_node cte_names alias_to_table logical_table_mapping
       column_mapping) q.

(* ------------------------------------------------------------------ *)
(** ** The rewrite functions on SQL text

    [parse_sql] is [sqlglot.parse_one(sql, dialect="snowflake")]: [inl msg]
    when it raises, [inr parsed] otherwise; [generate_sql] is
    [parsed.sql(dialect="snowflake")]. The printed warning is recorded in
    [warnings]. *)

Record RewriteResult := {
  out_sql : string;
  warnings : list string
}.

Section Rewrite.

Variable parse_sql : string -> string + Query.
Variable generate_sql : Query -> string.

Definition resolve_logical_to_physical_table_names (sql : string)
    (mapping : dict string) : RewriteResult :=
  match parse_sql sql with
  | inr parsed =>
      {| out_sql := generate_sql
                      (resolve_logical_to_physical_table_names_ast parsed mapping);
         warnings := [] |}
  | inl e =>
      {| out_sql := sql;
         warnings := ["Failed to translate logical->physical table names: " ++ e] |}
  end.

Definition resolve_physical_to_logical_table_names (sql : string)
    (reverse_mapping : dict string) : RewriteResult :=
  match parse_sql sql with
  | inr parsed =>
      {| out_sql := generate_sql
                      (resolve_physical_to_logical_table_names_ast parsed
                         reverse_mapping);
         warnings := [] |}
  | inl e =>
      {| out_sql := sql;
         warnings := ["Failed to translate physical->logical table names: " ++ e] |}
  end.

Definition resolve_logical_to_physical_column_names (sql : string)
    (table_mapping : dict string) (column_mapping : dict (dict string))
    : RewriteResult :=
  match parse_sql sql with
  | inr parsed =>
      {| out_sql := generate_sql
                      (resolve_logical_to_physical_column_names_ast parsed
                         table_mapping column_mapping);
         warnings := [] |}
  | inl e =>
      {| out_sql := sql;
         warnings := ["Failed to translate logical->physical column names: " ++ e] |}
  end.

Definition resolve_physical_to_logical_column_names (sql : string)
    (table_mapping : dict string) (column_mapping : dict (dict string))
    : RewriteResult :=
  match parse_sql sql with
  | inr parsed =>
      {| out_sql := generate_sql
                      (resolve_physical_to_logical_column_names_ast parsed
                         table_mapping column_mapping);
         warnings := [] |}
  | inl e =>
      {| out_sql := sql;
         warnings := ["Failed to translate physical->logical column names: " ++ e] |}
  end.

End Rewrite.

(* ------------------------------------------------------------------ *)
(** ** The callers of the rewrite functions *)

Section Callers.

Variable parse_sql : string -> string + Query.
Variable generate_sql : Query -> string.

(** [SemanticModelGetter._resolve_sql] on the model [d] (the cached
    mappings are the builders' results). *)
Definition resolve_sql (d : Document) (sql : string) : string :=
  let table_mapping := build_logical_to_physical_mapping d in
  let column_mapping := build_logical_to_physical_column_mapping d in
  if negb (nonempty table_mapping) then sql
  else
    let sql1 := out_sql (resolve_logical_to_physical_table_names parse_sql
                           generate_sql sql table_mapping) in
    if nonempty column_mapping then
      out_sql (resolve_logical_to_physical_column_names parse_sql generate_sql
                 sql1 table_mapping column_mapping)
    else sql1.

(** [SemanticModelSetter._translate_vqr_sql] on the model [d]. *)
Definition translate_vqr_sql (d : Document) (sql : string) : string :=
  let table_mapping := build_physical_to_logical_mapping d in
  let column_mapping := build_physical_to_logical_column_mapping d in
  if negb (nonempty table_mapping) then sql
  else
    let sql1 := out_sql (resolve_physical_to_logical_table_names parse_sql
                           generate_sql sql table_mapping) in
    if nonempty column_mapping then
      out_sql (resolve_physical_to_logical_column_names parse_sql generate_sql
                 sql1 table_mapping column_mapping)
    else sql1.

End Callers.

(* ------------------------------------------------------------------ *)
(** ** More of [relationship_creation.py] *)

(** [get_table]: the first table, in document order, whose name equals
    [table_name] ignoring case. *)
Definition get_table (semantic_model : Document) (table_name : string)
    : option SemanticTable :=
  let table_name_lower := str_lower table_name in
  find (fun t => String.eqb (str_lower (name t)) table_name_lower)
    (tables semantic_model).

(** [validate_columns_exist]: the names of the dimensions, facts and time
    dimensions, lower-cased, form [table_columns]; [missing] keeps the
    requested columns absent from it, in request order. *)
Definition validate_columns_exist (t : SemanticTable) (columns : list string)
    : bool * list string :=
  let table_columns :=
    map (fun e => str_lower (ce_name e))
      (dimensions t ++ facts t ++ time_dimensions t)%list in
  let missing :=
    filter (fun col => negb (mem_str (str_lower col) table_columns)) columns in
  ((List.length missing =? 0)%nat, missing).

(** [get_physical_table_fqn]: a missing [base_table] reads as [{}] and a
    missing field as [""]; the three parts are joined as they are. *)
Definition get_physical_table_fqn (t : SemanticTable) : string :=
  let '(db, sch, table_name) :=
    match base_table t with
    | Some bt => (database bt, schema bt, table bt)
    | None => (""%string, ""%string, ""%string)
    end in
  db ++ "." ++ sch ++ "." ++ table_name.

(** [str(entry.get("expr", entry["name"]))]: the expression, or the name
    when the entry has none. [ColumnEntry] writes a missing [expr] as [""],
    so an entry whose [expr] is present but empty (where the source returns
    [""]) or null (where it returns ["None"]) is read here as having none. *)
Definition column_physical_name (e : ColumnEntry) : string :=
  if truthy (ce_expr e) then ce_expr e else ce_name e.

(** [get_physical_column_name]: the first dimension, then the first fact,
    then the first time dimension whose name equals the logical name
    ignoring case. *)
Definition get_physical_column_name (t : SemanticTable)
    (logical_column_name : string) : option string :=
  let logical_lower := str_lower logical_column_name in
  let is_match (e : ColumnEntry) :=
    String.eqb (str_lower (ce_name e)) logical_lower in
  match find is_match (dimensions t) with
  | Some dim => Some (column_physical_name dim)
  | None =>
      match find is_match (facts t) with
      | Some fact => Some (column_physical_name fact)
      | None =>
          match find is_match (time_dimensions t) with
          | Some time_dim => Some (column_physical_name time_dim)
          | None => None
          end
      end
  end.

(* ------------------------------------------------------------------ *)
(** ** More of [infer_primary_keys.py] *)

(** [parse_table_name]: [None] where the source raises [ValueError]. *)
Definition parse_table_name (full_table_name : string)
    : option (string * string * string) :=
  match split_dot full_table_name with
  | [p0; p1; p2] => Some (p0, p1, p2)
  | _ => None
  end.

(** [get_null_percentage] on the outcome of its query: [None] when the
    query raises, [Some (total, non_null)] otherwise. *)
Definition get_null_percentage_of (result : option (Z * Z)) : Q :=
  match result with
  | None => 1%Q
  | Some (total, non_null) =>
      if (total =? 0)%Z then 1%Q
      else (inject_Z (total - non_null) / inject_Z total)%Q
  end.

(** The sort key [(-uniqueness_percentage, len(columns))] of
    [rank_candidates], compared lexicographically: [rank_key_lt a b] when
    the key of [a] is the smaller. *)
Definition rank_key_lt (a b : KeyCandidate) : bool :=
  negb (Qle_bool (uniqueness_percentage a) (uniqueness_percentage b)) ||
  (Qeq_bool (uniqueness_percentage a) (uniqueness_percentage b) &&
   (List.length (kc_columns a) <? List.length (kc_columns b))%nat).

(** Insertion in front of the first element whose key is not smaller. *)
Fixpoint insert_ranked (x : KeyCandidate) (l : list KeyCandidate)
    : list KeyCandidate :=
  match l with
  | [] => [x]
  | y :: l' => if rank_key_lt y x then y :: insert_ranked x l' else x :: l
  end.

(** [rank_candidates]: Python's [sorted] is stable, and so is this
    insertion sort. *)
Definition rank_candidates (candidates : list KeyCandidate)
    : list KeyCandidate :=
  fold_right insert_ranked [] candidates.

(** [columns_upper = {col.upper(): col for col in columns}]. *)
Definition columns_upper_map (columns : list string) : dict string :=
  fold_left (fun m col => dict_set (str_upper col) col m) columns [].

(** The hint loop of [infer_primary_keys]: [(valid_hint_columns,
    invalid_hint_columns)]. *)
Definition split_hint_columns (columns hint_columns : list string)
    : list string * list string :=
  let columns_upper := columns_upper_map columns in
  fold_left (fun '(valid_hint_columns, invalid_hint_columns) hint_col =>
      match dict_get (str_upper hint_col) columns_upper with
      | Some col => ((valid_hint_columns ++ [col])%list, invalid_hint_columns)
      | None => (valid_hint_columns, (invalid_hint_columns ++ [hint_col])%list)
      end) hint_columns ([], []).

(** The [candidates] of [infer_primary_keys], given the table's [columns],
    its sampled [row_count] and the two cardinality oracles. A
    [hint_columns] of [None] is [[]]: both are falsy. *)
Definition infer_primary_key_candidates
    (get_column_cardinality : string -> nat)
    (get_composite_cardinality : list string -> nat)
    (columns : list string) (row_count max_composite_cols : nat)
    (hint_columns : list string) (uniqueness_threshold : Q)
    : list KeyCandidate :=
  if (row_count =? 0)%nat then []
  else
    let '(valid_hint_columns, _) := split_hint_columns columns hint_columns in
    let composite_candidates :=
      match hint_columns, valid_hint_columns with
      | _ :: _, _ :: _ =>
          find_composite_keys get_composite_cardinality valid_hint_columns
            row_count max_composite_cols uniqueness_threshold
      | _, _ => []
      end in
    let single_column_candidates :=
      match hint_columns with
      | _ :: _ => find_single_column_keys get_column_cardinality
                    valid_hint_columns row_count uniqueness_threshold
      | [] => find_single_column_keys get_column_cardinality columns
                row_count uniqueness_threshold
      end in
    rank_candidates (single_column_candidates ++ composite_candidates)%list.

(* ------------------------------------------------------------------ *)
(** ** Auxiliary definitions for the statements *)

(** The physical fully-qualified name a table spells out
    ([database.schema.table]), or [""] without a [base_table]. *)
Definition table_fqn_string (t : SemanticTable) : string :=
  match base_table t with
  | Some bt => database bt ++ "." ++ schema bt ++ "." ++ table bt
  | None => ""
  end.

Definition has_complete_reference (t : SemanticTable) : Prop :=
  exists bt, base_table t = Some bt /\ truthy (database bt) = true /\
             truthy (schema bt) = true /\ truthy (table bt) = true.

(** The score as the key-inference paragraph of the spec words it: +3 for
    an id/key token, +2 for a date/time-like name or a temporal type, +1
    for numeric or generic string types, -2 for free-text string columns
    (name/description/comment/content), -1 for floating-point types, +1
    for NOT NULL. The token tests are the source's. *)
Definition claimed_key_candidate_score (col_meta : ColumnMeta) : Z :=
  let col_name := str_upper (cm_name col_meta) in
  let dt := str_upper (data_type col_meta) in
  let is_string := contains "VARCHAR" dt || contains "TEXT" dt in
  ((if contains "_ID" col_name || ends_with "ID" col_name
       || contains "_KEY" col_name || ends_with "KEY" col_name then 3 else 0)
   + (if any_in ["DATE"; "TIME"; "TIMESTAMP"; "DS"; "DT"] col_name
         || contains "DATE" dt || contains "TIME" dt || contains "TIMESTAMP" dt
      then 2 else 0)
   + (if contains "NUMBER" dt || contains "INT" dt then 1 else 0)
   + (if is_string then
        if any_in ["NAME"; "DESCRIPTION"; "COMMENT"; "CONTENT"] col_name
        then -2 else 1
      else 0)
   + (if contains "FLOAT" dt || contains "DOUBLE" dt || contains "DECIMAL" dt
      then -1 else 0)
   + (if negb (nullable col_meta) then 1 else 0))%Z.

Fixpoint count_dots (s : string) : nat :=
  match s with
  | EmptyString => 0
  | String c s' => (if Ascii.eqb c "." then 1 else 0) + count_dots s'
  end.

(** [s] is written in 7-bit ASCII, where [str_lower] and [str_upper] are
    Python's [str.lower] and [str.upper]. *)
Fixpoint is_ascii7 (s : string) : bool :=
  match s with
  | EmptyString => true
  | String c s' => (nat_of_ascii c <? 128)%nat && is_ascii7 s'
  end.

(** [a] may precede [b] in the order [rank_candidates] sorts by: higher
    uniqueness first, then fewer columns. *)
Definition ranked_before (a b : KeyCandidate) : Prop :=
  (uniqueness_percentage b < uniqueness_percentage a)%Q \/
  ((uniqueness_percentage a == uniqueness_percentage b)%Q /\
   List.length (kc_columns a) <= List.length (kc_columns b)).


(* ------------------------------------------------------------------ *)
(** ** Concrete inputs *)

Definition no_columns_table (n : string) (bt : option BaseTable)
    (pk : option (list string)) : SemanticTable :=
  {| name := n; base_table := bt; primary_key := pk; unique_keys := [];
     dimensions := []; time_dimensions := []; measures := []; facts := [];
     metrics := [] |}.

(** [CUSTOMERS(customer_id PK)] and [ORDERS(order_id PK, customer_id)]. *)
Definition customers_table : SemanticTable :=
  no_columns_table "CUSTOMERS"
    (Some {| database := "DB"; schema := "SCH"; table := "CUSTOMERS_TBL" |})
    (Some ["customer_id"]).

Definition orders_table : SemanticTable :=
  {| name := "ORDERS";
     base_table := Some {| database := "DB"; schema := "SCH";
                           table := "ORDERS_TBL" |};
     primary_key := Some ["order_id"]; unique_keys := [];
     dimensions := [{| ce_name := "customer_id"; ce_expr := "CUSTOMER_ID" |};
                    {| ce_name := "x"; ce_expr := "X_PHYS" |}];
     time_dimensions := []; measures := []; facts := []; metrics := [] |}.

Definition orders_doc : Document := {| tables := [orders_table; customers_table] |}.

(** [WITH c AS (SELECT 1 AS x) SELECT orders.x FROM c AS orders] *)
Definition cte_alias_query : Query :=
  QSelect [("c", QSelect [] [EAlias (ELit "1") "x"] None [] None)]
    [EColumn "orders" "x"]
    (Some {| t_this := "c"; t_db := ""; t_catalog := ""; t_alias := "orders" |})
    [] None.

(** [SELECT 1 FROM ORDERS_TBL] *)
Definition bare_physical_query : Query :=
  QSelect [] [ELit "1"]
    (Some {| t_this := "ORDERS_TBL"; t_db := ""; t_catalog := "";
             t_alias := "" |}) [] None.

(** A document whose only table has a mixed-case name. *)
Definition mixed_case_doc : Document :=
  {| tables := [no_columns_table "Orders"
                  (Some {| database := "DB"; schema := "SCH";
                           table := "ORDERS_TBL" |}) None] |}.

(** A document whose only table has a column but no [base_table]. *)
Definition unbound_table_doc : Document :=
  {| tables := [{| name := "T1"; base_table := None; primary_key := None;
                   unique_keys := [];
                   dimensions := [{| ce_name := "x"; ce_expr := "X" |}];
                   time_dimensions := []; measures := []; facts := [];
                   metrics := [] |}] |}.

(** [WITH c AS (SELECT 1 AS x) SELECT c.x FROM c] *)
Definition cte_direct_query : Query :=
  QSelect [("c", QSelect [] [EAlias (ELit "1") "x"] None [] None)]
    [EColumn "c" "x"]
    (Some {| t_this := "c"; t_db := ""; t_catalog := ""; t_alias := "" |})
    [] None.

(** [SELECT 1 FROM DB.SCH.ORDERS_TBL] *)
Definition qualified_physical_query : Query :=
  QSelect [] [ELit "1"]
    (Some {| t_this := "ORDERS_TBL"; t_db := "SCH"; t_catalog := "DB";
             t_alias := "" |}) [] None.

(** A nullable [DATE] column named [ORDER_DATE]. *)
Definition order_date_column : ColumnMeta :=
  {| cm_name := "ORDER_DATE"; data_type := "DATE"; nullable := true |}.


(* ------------------------------------------------------------------ *)
(** ** Lemmas on the dict model *)

Lemma dict_get_set {V} (k k' : string) (v : V) (d : dict V) :
  dict_get k (dict_set k' v d) =
  if String.eqb k k' then Some v else dict_get k d.
Proof.
  induction d as [| [k0 v0] d IH]; simpl.
  - reflexivity.
  - destruct (String.eqb k' k0) eqn:E1.
    + apply String.eqb_eq in E1. subst k0. simpl.
      destruct (String.eqb k k'); reflexivity.
    + simpl. destruct (String.eqb k k0) eqn:E2.
      * apply String.eqb_eq in E2. subst k0.
        destruct (String.eqb k k') eqn:E3; [|reflexivity].
        apply String.eqb_eq in E3. subst k'. rewrite String.eqb_refl in E1.
        discriminate.
      * exact IH.
Qed.

Lemma dict_get_In {V} (k : string) (v : V) (d : dict V) :
  dict_get k d = Some v -> In (k, v) d.
Proof.
  induction d as [| [k0 v0] d IH]; simpl; [discriminate|].
  destruct (String.eqb k k0) eqn:E.
  - apply String.eqb_eq in E. subst. intros H; inversion H; auto.
  - intros H; right; auto.
Qed.

Section InsertEntries.

Context {A V : Type} (entry : A -> option (string * V)).

Lemma insert_entries_cons x xs d :
  insert_entries entry (x :: xs) d =
  insert_entries entry xs
    (match entry x with Some (k, v) => dict_set k v d | None => d end).
Proof. reflexivity. Qed.

(** Every entry of the result comes from the start dict or from an
    element of the list. *)
Lemma insert_entries_sound xs d k v :
  dict_get k (insert_entries entry xs d) = Some v ->
  dict_get k d = Some v \/ exists x, In x xs /\ entry x = Some (k, v).
Proof.
  revert d. induction xs as [| x xs IH]; intros d H; [left; exact H|].
  rewrite insert_entries_cons in H.
  destruct (IH _ H) as [H1 | [y [Hy Hey]]].
  - destruct (entry x) as [[k' v']|] eqn:Ex; [|left; exact H1].
    rewrite dict_get_set in H1.
    destruct (String.eqb k k') eqn:E.
    + apply String.eqb_eq in E. subst k'. inversion H1; subst.
      right. exists x. split; [left; reflexivity | exact Ex].
    + left; exact H1.
  - right. exists y. split; [right; exact Hy | exact Hey].
Qed.

(** Keys no element produces are left alone. *)
Lemma insert_entries_other xs d k :
  (forall x k' v', In x xs -> entry x = Some (k', v') -> k' <> k) ->
  dict_get k (insert_entries entry xs d) = dict_get k d.
Proof.
  revert d. induction xs as [| x xs IH]; intros d Hn; [reflexivity|].
  rewrite insert_entries_cons, IH.
  - destruct (entry x) as [[k' v']|] eqn:Ex; [|reflexivity].
    rewrite dict_get_set.
    destruct (String.eqb k k') eqn:E; [|reflexivity].
    apply String.eqb_eq in E. subst k'.
    exfalso. exact (Hn x k v' (or_introl eq_refl) Ex eq_refl).
  - intros y k' v' Hy. exact (Hn y k' v' (or_intror Hy)).
Qed.

(** A key produced by some element, always with the same value, ends up
    with that value. *)
Lemma insert_entries_complete xs d x k v :
  In x xs -> entry x = Some (k, v) ->
  (forall y v', In y xs -> entry y = Some (k, v') -> v' = v) ->
  dict_get k (insert_entries entry xs d) = Some v.
Proof.
  revert d x. induction xs as [| y xs IH]; intros d x Hin Hx Hall; [contradiction|].
  rewrite insert_entries_cons.
  assert (Hall' : forall z v', In z xs -> entry z = Some (k, v') -> v' = v)
    by (intros z v' Hz; apply Hall; right; exact Hz).
  set (has_k := fun z => match entry z with
                         | Some (k', _) => String.eqb k' k
                         | None => false end).
  destruct (existsb has_k xs) eqn:Eb.
  - apply existsb_exists in Eb. destruct Eb as [z [Hz Hk]].
    unfold has_k in Hk. destruct (entry z) as [[k' v']|] eqn:Ez; [|discriminate].
    apply String.eqb_eq in Hk. subst k'.
    pose proof (Hall' z v' Hz Ez) as ->.
    exact (IH _ z Hz Ez Hall').
  - assert (Hno : forall z k' v', In z xs -> entry z = Some (k', v') -> k' <> k).
    { intros z k' v' Hz Ez Heq. subst k'.
      assert (Ht : existsb has_k xs = true).
      { apply existsb_exists. exists z. split; [exact Hz|].
        unfold has_k. rewrite Ez. apply String.eqb_refl. }
      congruence. }
    rewrite (insert_entries_other xs _ k Hno).
    destruct Hin as [<- | Hin].
    + rewrite Hx, dict_get_set, String.eqb_refl. reflexivity.
    + exfalso. exact (Hno x k v Hin Hx eq_refl).
Qed.

(** A key present in the start dict stays present. *)
Lemma insert_entries_keeps_key xs d k :
  (exists v, dict_get k d = Some v) ->
  exists v, dict_get k (insert_entries entry xs d) = Some v.
Proof.
  revert d. induction xs as [| x xs IH]; intros d [v H]; [eauto|].
  rewrite insert_entries_cons. apply IH.
  destruct (entry x) as [[k' v']|]; [|eauto].
  rewrite dict_get_set. destruct (String.eqb k k'); eauto.
Qed.

(** A key produced by some element ends up present (with the value of the
    last element producing it). *)
Lemma insert_entries_has_key xs d x k v :
  In x xs -> entry x = Some (k, v) ->
  exists v', dict_get k (insert_entries entry xs d) = Some v'.
Proof.
  revert d. induction xs as [| y xs IH]; intros d Hin Hx; [contradiction|].
  rewrite insert_entries_cons. destruct Hin as [<- | Hin].
  - apply insert_entries_keeps_key. rewrite Hx, dict_get_set, String.eqb_refl.
    eauto.
  - apply IH; assumption.
Qed.

End InsertEntries.

(* ------------------------------------------------------------------ *)
(** ** Lemmas on case conversion *)

Lemma ascii_lower_lower c : ascii_lower (ascii_lower c) = ascii_lower c.
Proof. destruct c as [[] [] [] [] [] [] [] []]; reflexivity. Qed.

Lemma ascii_lower_upper c : ascii_lower (ascii_upper c) = ascii_lower c.
Proof. destruct c as [[] [] [] [] [] [] [] []]; reflexivity. Qed.

Lemma ascii_upper_lower c : ascii_upper (ascii_lower c) = ascii_upper c.
Proof. destruct c as [[] [] [] [] [] [] [] []]; reflexivity. Qed.

Lemma ascii_upper_upper c : ascii_upper (ascii_upper c) = ascii_upper c.
Proof. destruct c as [[] [] [] [] [] [] [] []]; reflexivity. Qed.

Lemma str_lower_lower s : str_lower (str_lower s) = str_lower s.
Proof. induction s; simpl; [reflexivity|]. now rewrite ascii_lower_lower, IHs. Qed.

Lemma str_lower_upper s : str_lower (str_upper s) = str_lower s.
Proof. induction s; simpl; [reflexivity|]. now rewrite ascii_lower_upper, IHs. Qed.

Lemma str_upper_lower s : str_upper (str_lower s) = str_upper s.
Proof. induction s; simpl; [reflexivity|]. now rewrite ascii_upper_lower, IHs. Qed.

Lemma str_upper_upper s : str_upper (str_upper s) = str_upper s.
Proof. induction s; simpl; [reflexivity|]. now rewrite ascii_upper_upper, IHs. Qed.

Lemma case_insensitive_lookup_unfold key m :
  case_insensitive_lookup key m =
  match dict_get key m with
  | Some x => Some x
  | None => match dict_get (str_lower key) m with
            | Some x => Some x
            | None => match dict_get (str_upper key) m with
                      | Some x => Some x
                      | None => None
                      end
            end
  end.
Proof. reflexivity. Qed.

Lemma case_insensitive_column_lookup_eq c d :
  case_insensitive_column_lookup c d = case_insensitive_lookup c d.
Proof. reflexivity. Qed.

(** When neither [n.lower()] nor [n.upper()] is a key other than [n]
    itself, the lower- and upper-cased spellings of a stored [n] find [n]'s
    value if [n] is written in a single case, and nothing otherwise. *)
Lemma case_insensitive_lookup_spellings (m : dict string) n f :
  dict_get n m = Some f ->
  (forall k v, In (k, v) m -> (k = str_lower n \/ k = str_upper n) -> k = n) ->
  ((str_lower n = n \/ str_upper n = n) ->
     case_insensitive_lookup (str_lower n) m = Some f /\
     case_insensitive_lookup (str_upper n) m = Some f) /\
  (str_lower n <> n -> str_upper n <> n ->
     case_insensitive_lookup (str_lower n) m = None /\
     case_insensitive_lookup (str_upper n) m = None).
Proof.
  intros Hn Huniq.
  assert (Hl : forall v, dict_get (str_lower n) m = Some v -> str_lower n = n).
  { intros v Hv. symmetry.
    exact (eq_sym (Huniq _ v (dict_get_In _ _ _ Hv) (or_introl eq_refl))). }
  assert (Hu : forall v, dict_get (str_upper n) m = Some v -> str_upper n = n).
  { intros v Hv.
    exact (Huniq _ v (dict_get_In _ _ _ Hv) (or_intror eq_refl)). }
  rewrite !case_insensitive_lookup_unfold.
  rewrite str_lower_lower, str_upper_lower, str_lower_upper, str_upper_upper.
  split.
  - intros Hcase.
    destruct (dict_get (str_lower n) m) as [v|] eqn:E1;
      destruct (dict_get (str_upper n) m) as [w|] eqn:E2.
    + pose proof (Hl v eq_refl) as H1. pose proof (Hu w eq_refl) as H2.
      rewrite H1 in E1. rewrite H2 in E2. split; congruence.
    + pose proof (Hl v eq_refl) as H1. rewrite H1 in E1. split; congruence.
    + pose proof (Hu w eq_refl) as H2. rewrite H2 in E2. split; congruence.
    + exfalso. destruct Hcase as [H | H]; rewrite H in *; congruence.
  - intros Hl' Hu'.
    destruct (dict_get (str_lower n) m) as [v|] eqn:E1;
      [exfalso; exact (Hl' (Hl v eq_refl))|].
    destruct (dict_get (str_upper n) m) as [w|] eqn:E2;
      [exfalso; exact (Hu' (Hu w eq_refl))|].
    split; reflexivity.
Qed.

Lemma nth_error_combine {A B} (l : list A) (l' : list B) i da db :
  List.length l = List.length l' -> i < List.length l ->
  nth_error (combine l l') i = Some (nth i l da, nth i l' db).
Proof.
  revert l' i. induction l as [| a l IH]; intros [| b l'] [| i] Hlen Hi;
    simpl in *; try lia; try reflexivity.
  apply IH; lia.
Qed.

(* ------------------------------------------------------------------ *)
(** ** Relationship inference *)

(** C1: when only the left table has a primary-key or unique-key set
    covered by its join columns, [infer_relationship_type] answers
    [many_to_one] with the tables swapped: the output's right table is the
    caller's left table (the one carrying the uniqueness guarantee), and
    the i-th column pair is (right_columns[i], left_columns[i]), so every
    pair still joins the same two columns. *)
Theorem infer_relationship_type_swaps_left_only
    (left_tbl right_tbl : SemanticTable) (left_cols right_cols : list string) :
  List.length left_cols = List.length right_cols ->
  has_constraint_on_columns (get_all_constraint_sets left_tbl)
    (lower_set left_cols) = true ->
  has_constraint_on_columns (get_all_constraint_sets right_tbl)
    (lower_set right_cols) = false ->
  exists rel,
    infer_relationship_type left_tbl right_tbl left_cols right_cols =
      ("many_to_one (swapped)", PRelationship rel) /\
    relationship_type rel = "many_to_one" /\
    left_table rel = name right_tbl /\
    right_table rel = name left_tbl /\
    List.length (relationship_columns rel) = List.length left_cols /\
    (forall i, i < List.length left_cols ->
       nth_error (relationship_columns rel) i =
         Some {| left_column := nth i right_cols "";
                 right_column := nth i left_cols "" |}).
Proof.
  intros Hlen HL HR.
  unfold infer_relationship_type. cbv zeta. rewrite HL, HR. simpl.
  eexists. split; [reflexivity|].
  simpl. split; [reflexivity|]. split; [reflexivity|]. split; [reflexivity|].
  split.
  - rewrite length_map, length_combine, Hlen. lia.
  - intros i Hi. rewrite nth_error_map.
    rewrite (nth_error_combine _ _ i "" "" Hlen Hi). reflexivity.
Qed.

Lemma infer_relationship_type_swaps_left_only_witness :
  exists rel,
    infer_relationship_type customers_table orders_table
      ["customer_id"] ["customer_id"] =
      ("many_to_one (swapped)", PRelationship rel) /\
    relationship_type rel = "many_to_one" /\
    left_table rel = "ORDERS" /\ right_table rel = "CUSTOMERS" /\
    List.length (relationship_columns rel) = 1 /\
    (forall i, i < 1 ->
       nth_error (relationship_columns rel) i =
         Some {| left_column := nth i ["customer_id"] "";
                 right_column := nth i ["customer_id"] "" |}).
Proof.
  apply (infer_relationship_type_swaps_left_only customers_table orders_table
           ["customer_id"] ["customer_id"]); reflexivity.
Defined.

(** C2: when neither table has a primary-key or unique-key set covered by
    its join columns, [infer_relationship_type] returns the many-to-many
    rejection record, carrying both table names and both column lists, and
    never a relationship. *)
Theorem infer_relationship_type_rejects_many_to_many
    (left_tbl right_tbl : SemanticTable) (left_cols right_cols : list string) :
  has_constraint_on_columns (get_all_constraint_sets left_tbl)
    (lower_set left_cols) = false ->
  has_constraint_on_columns (get_all_constraint_sets right_tbl)
    (lower_set right_cols) = false ->
  (exists e,
     infer_relationship_type left_tbl right_tbl left_cols right_cols =
       ("many_to_many (rejected)", PError e) /\
     error e = "many_to_many" /\
     err_left_table e = name left_tbl /\ err_right_table e = name right_tbl /\
     left_columns e = left_cols /\ right_columns e = right_cols) /\
  (forall tag rel,
     infer_relationship_type left_tbl right_tbl left_cols right_cols <>
       (tag, PRelationship rel)).
Proof.
  intros HL HR.
  unfold infer_relationship_type. cbv zeta. rewrite HL, HR. simpl.
  split.
  - eexists. repeat split.
  - intros tag rel H. inversion H.
Qed.

Lemma infer_relationship_type_rejects_many_to_many_witness :
  (exists e,
     infer_relationship_type orders_table customers_table
       ["customer_id"] ["name"] = ("many_to_many (rejected)", PError e) /\
     error e = "many_to_many" /\
     err_left_table e = "ORDERS" /\ err_right_table e = "CUSTOMERS" /\
     left_columns e = ["customer_id"] /\ right_columns e = ["name"]) /\
  (forall tag rel,
     infer_relationship_type orders_table customers_table
       ["customer_id"] ["name"] <> (tag, PRelationship rel)).
Proof.
  apply (infer_relationship_type_rejects_many_to_many orders_table
           customers_table ["customer_id"] ["name"]); reflexivity.
Defined.

(* ------------------------------------------------------------------ *)
(** ** Parse failures *)

(** C4: when parsing raises, each of the four rewrite functions returns the
    original SQL text and records a warning instead of raising. *)
Theorem rewrite_functions_fail_soft (parse_sql : string -> string + Query)
    (generate_sql : Query -> string) (sql msg : string)
    (mapping : dict string) (column_mapping : dict (dict string)) :
  parse_sql sql = inl msg ->
  (out_sql (resolve_logical_to_physical_table_names parse_sql generate_sql
              sql mapping) = sql /\
   warnings (resolve_logical_to_physical_table_names parse_sql generate_sql
               sql mapping) <> []) /\
  (out_sql (resolve_physical_to_logical_table_names parse_sql generate_sql
              sql mapping) = sql /\
   warnings (resolve_physical_to_logical_table_names parse_sql generate_sql
               sql mapping) <> []) /\
  (out_sql (resolve_logical_to_physical_column_names parse_sql generate_sql
              sql mapping column_mapping) = sql /\
   warnings (resolve_logical_to_physical_column_names parse_sql generate_sql
               sql mapping column_mapping) <> []) /\
  (out_sql (resolve_physical_to_logical_column_names parse_sql generate_sql
              sql mapping column_mapping) = sql /\
   warnings (resolve_physical_to_logical_column_names parse_sql generate_sql
               sql mapping column_mapping) <> []).
Proof.
  intros Hp.
  unfold resolve_logical_to_physical_table_names,
    resolve_physical_to_logical_table_names,
    resolve_logical_to_physical_column_names,
    resolve_physical_to_logical_column_names.
  rewrite Hp. simpl.
  repeat split; discriminate.
Qed.

Lemma rewrite_functions_fail_soft_witness :
  let parse_sql := fun _ : string => @inl string Query "ParseError" in
  let generate_sql := fun _ : Query => "" in
  (out_sql (resolve_logical_to_physical_table_names parse_sql generate_sql
              "SELEC" []) = "SELEC" /\
   warnings (resolve_logical_to_physical_table_names parse_sql generate_sql
               "SELEC" []) <> []) /\
  (out_sql (resolve_physical_to_logical_table_names parse_sql generate_sql
              "SELEC" []) = "SELEC" /\
   warnings (resolve_physical_to_logical_table_names parse_sql generate_sql
               "SELEC" []) <> []) /\
  (out_sql (resolve_logical_to_physical_column_names parse_sql generate_sql
              "SELEC" [] []) = "SELEC" /\
   warnings (resolve_logical_to_physical_column_names parse_sql generate_sql
               "SELEC" [] []) <> []) /\
  (out_sql (resolve_physical_to_logical_column_names parse_sql generate_sql
              "SELEC" [] []) = "SELEC" /\
   warnings (resolve_physical_to_logical_column_names parse_sql generate_sql
               "SELEC" [] []) <> []).
Proof.
  intros parse_sql generate_sql.
  apply (rewrite_functions_fail_soft parse_sql generate_sql "SELEC"
           "ParseError" [] []).
  reflexivity.
Defined.

(* ------------------------------------------------------------------ *)
(** ** Case-insensitive lookups on built mappings *)

(** C5, as stated: a mixed-case logical name is found as given but neither
    lower-cased nor upper-cased. *)
Lemma case_insensitive_lookup_mixed_case_counterexample :
  let m := build_logical_to_physical_mapping mixed_case_doc in
  dict_get "Orders" m = Some "DB.SCH.ORDERS_TBL" /\
  case_insensitive_lookup "Orders" m = Some "DB.SCH.ORDERS_TBL" /\
  case_insensitive_lookup (str_lower "Orders") m = None /\
  case_insensitive_lookup (str_upper "Orders") m = None.
Proof. vm_compute. repeat split. Qed.

(** C5 (amended): in a mapping built from a document (the
    logical-to-physical table mapping, or one table's column map), a stored
    name [n] is always found as given. For [n] written in 7-bit ASCII such
    that neither [n.lower()] nor [n.upper()] is another stored key: if [n]
    is all lower case or all upper case, looking up [n.lower()] and
    [n.upper()] yields [n]'s target; if [n] mixes cases, both yield
    nothing. *)
Theorem case_insensitive_lookup_single_case_names (d : Document) :
  (forall n f,
     let m := build_logical_to_physical_mapping d in
     dict_get n m = Some f ->
     case_insensitive_lookup n m = Some f /\
     (is_ascii7 n = true ->
      (forall k v, In (k, v) m -> (k = str_lower n \/ k = str_upper n) -> k = n) ->
      ((str_lower n = n \/ str_upper n = n) ->
         case_insensitive_lookup (str_lower n) m = Some f /\
         case_insensitive_lookup (str_upper n) m = Some f) /\
      (str_lower n <> n -> str_upper n <> n ->
         case_insensitive_lookup (str_lower n) m = None /\
         case_insensitive_lookup (str_upper n) m = None))) /\
  (forall tbl cols c e,
     dict_get tbl (build_logical_to_physical_column_mapping d) = Some cols ->
     dict_get c cols = Some e ->
     case_insensitive_column_lookup c cols = Some e /\
     (is_ascii7 c = true ->
      (forall k v, In (k, v) cols -> (k = str_lower c \/ k = str_upper c) -> k = c) ->
      ((str_lower c = c \/ str_upper c = c) ->
         case_insensitive_column_lookup (str_lower c) cols = Some e /\
         case_insensitive_column_lookup (str_upper c) cols = Some e) /\
      (str_lower c <> c -> str_upper c <> c ->
         case_insensitive_column_lookup (str_lower c) cols = None /\
         case_insensitive_column_lookup (str_upper c) cols = None))).
Proof.
  split.
  - intros n f m Hn. rewrite case_insensitive_lookup_unfold, Hn.
    split; [reflexivity|]. intros _ Huniq.
    exact (case_insensitive_lookup_spellings m n f Hn Huniq).
  - intros tbl cols c e _ He.
    rewrite !case_insensitive_column_lookup_eq, case_insensitive_lookup_unfold, He.
    split; [reflexivity|]. intros _ Huniq.
    exact (case_insensitive_lookup_spellings cols c e He Huniq).
Qed.

Lemma case_insensitive_lookup_single_case_names_witness :
  (case_insensitive_lookup (str_lower "ORDERS")
     (build_logical_to_physical_mapping orders_doc) = Some "DB.SCH.ORDERS_TBL" /\
   case_insensitive_lookup (str_upper "ORDERS")
     (build_logical_to_physical_mapping orders_doc) = Some "DB.SCH.ORDERS_TBL") /\
  (case_insensitive_lookup (str_lower "Orders")
     (build_logical_to_physical_mapping mixed_case_doc) = None /\
   case_insensitive_lookup (str_upper "Orders")
     (build_logical_to_physical_mapping mixed_case_doc) = None).
Proof.
  split.
  - refine (proj1 (proj2 (proj1 (case_insensitive_lookup_single_case_names
                                   orders_doc) "ORDERS" "DB.SCH.ORDERS_TBL"
                             _) _ _) _).
    + vm_compute. reflexivity.
    + vm_compute. reflexivity.
    + intros k v Hin Hk. vm_compute in Hin.
      destruct Hin as [H | [H | []]]; inversion H; subst; [reflexivity|].
      vm_compute in Hk. destruct Hk; discriminate.
    + right. vm_compute. reflexivity.
  - refine (proj2 (proj2 (proj1 (case_insensitive_lookup_single_case_names
                                   mixed_case_doc) "Orders" "DB.SCH.ORDERS_TBL"
                             _) _ _) _ _).
    + vm_compute. reflexivity.
    + vm_compute. reflexivity.
    + intros k v Hin Hk. vm_compute in Hin.
      destruct Hin as [H | []]; inversion H; subst; reflexivity.
    + vm_compute. discriminate.
    + vm_compute. discriminate.
Defined.

(* ------------------------------------------------------------------ *)
(** ** Which tables reach the mappings *)

Lemma table_physical_fqn_complete t f :
  table_physical_fqn t = Some f ->
  exists bt, base_table t = Some bt /\ truthy (name t) = true /\
    truthy (database bt) = true /\ truthy (schema bt) = true /\
    truthy (table bt) = true /\
    f = database bt ++ "." ++ schema bt ++ "." ++ table bt.
Proof.
  unfold table_physical_fqn. destruct (base_table t) as [bt|]; [|discriminate].
  destruct (truthy (name t)) eqn:En; [|discriminate].
  destruct (truthy (database bt)) eqn:E1; [|discriminate].
  destruct (truthy (schema bt)) eqn:E2; [|discriminate].
  destruct (truthy (table bt)) eqn:E3; [|discriminate].
  intros H; inversion H. exists bt. repeat split; assumption.
Qed.

Lemma table_physical_fqn_string t f :
  table_physical_fqn t = Some f -> table_fqn_string t = f.
Proof.
  intros H. destruct (table_physical_fqn_complete t f H)
    as [bt [Hb [_ [_ [_ [_ ->]]]]]].
  unfold table_fqn_string. rewrite Hb. reflexivity.
Qed.

Lemma fold_left_map_ext {A B C} (f : C -> B -> C) (g : A -> B) xs acc :
  fold_left f (map g xs) acc = fold_left (fun c a => f c (g a)) xs acc.
Proof. revert acc. induction xs; simpl; auto. Qed.

(** C6, as stated: a table without a [base_table] still gets an entry in
    the column mapping, so the column mapping's keys are not among the
    table mapping's. *)
Lemma column_mapping_ignores_physical_reference_counterexample :
  dict_get "T1" (build_logical_to_physical_mapping unbound_table_doc) = None /\
  dict_get "T1" (build_logical_to_physical_column_mapping unbound_table_doc)
    = Some [("x", "X")].
Proof. vm_compute. split; reflexivity. Qed.

(** C6 (amended): every entry of the table mapping comes from a table of
    the document with a non-empty name and a complete physical reference
    (database, schema and table all non-empty), mapped to its
    [database.schema.table]; so tables lacking one contribute nothing.
    Every entry of the column mapping comes from a table with a non-empty
    name and at least one column carrying both a name and an expression;
    conversely every such table has an entry, whatever its [base_table];
    and the column mapping does not depend on the physical references at
    all: removing every [base_table] leaves it unchanged. *)
Theorem mapping_builders_physical_reference (d : Document) :
  (forall n f,
     dict_get n (build_logical_to_physical_mapping d) = Some f ->
     exists t bt, In t (tables d) /\ name t = n /\ truthy n = true /\
       base_table t = Some bt /\
       truthy (database bt) = true /\ truthy (schema bt) = true /\
       truthy (table bt) = true /\
       f = database bt ++ "." ++ schema bt ++ "." ++ table bt) /\
  (forall n cols,
     dict_get n (build_logical_to_physical_column_mapping d) = Some cols ->
     exists t, In t (tables d) /\ name t = n /\ truthy n = true /\
       cols = table_columns_l2p t /\ cols <> []) /\
  (forall t c, In t (tables d) -> truthy (name t) = true ->
     In c (List.concat (column_sections t)) ->
     truthy (ce_name c) = true -> truthy (ce_expr c) = true ->
     exists cols,
       dict_get (name t) (build_logical_to_physical_column_mapping d)
       = Some cols) /\
  build_logical_to_physical_column_mapping
    {| tables := map (fun t => {| name := name t; base_table := None;
                                  primary_key := primary_key t;
                                  unique_keys := unique_keys t;
                                  dimensions := dimensions t;
                                  time_dimensions := time_dimensions t;
                                  measures := measures t; facts := facts t;
                                  metrics := metrics t |}) (tables d) |}
  = build_logical_to_physical_column_mapping d.
Proof.
  split; [|split; [|split]].
  - intros n f H.
    destruct (insert_entries_sound _ _ _ _ _ H) as [H0 | [t [Ht He]]];
      [discriminate|].
    destruct (table_physical_fqn t) as [f'|] eqn:Ef; [|discriminate].
    inversion He; subst n f'.
    destruct (table_physical_fqn_complete t f Ef)
      as [bt [Hb [Hn [H1 [H2 [H3 Hf]]]]]].
    exists t, bt. split; [exact Ht|]. split; [reflexivity|].
    split; [exact Hn|]. split; [exact Hb|]. auto.
  - intros n cols H.
    destruct (insert_entries_sound _ _ _ _ _ H) as [H0 | [t [Ht He]]];
      [discriminate|].
    cbv zeta in He.
    destruct (truthy (name t)) eqn:En; [|discriminate].
    destruct (nonempty (table_columns_l2p t)) eqn:Ene; [|discriminate].
    inversion He; subst n cols.
    exists t. split; [exact Ht|]. split; [reflexivity|].
    split; [exact En|]. split; [reflexivity|].
    intros Hnil. rewrite Hnil in Ene. discriminate.
  - intros t c Ht Hn Hc Hcn Hce.
    destruct (insert_entries_has_key
                (fun c => if truthy (ce_name c) && truthy (ce_expr c)
                          then Some (ce_name c, ce_expr c) else None)
                _ [] c (ce_name c) (ce_expr c) Hc)
      as [e He]; [rewrite Hcn, Hce; reflexivity|].
    fold (table_columns_l2p t) in He.
    apply (insert_entries_has_key _ _ [] t (name t) (table_columns_l2p t) Ht).
    cbv zeta. rewrite Hn.
    destruct (table_columns_l2p t); [discriminate|reflexivity].
  - unfold build_logical_to_physical_column_mapping, insert_entries. simpl.
    rewrite fold_left_map_ext. reflexivity.
Qed.

Lemma mapping_builders_physical_reference_witness :
  (exists t bt, In t (tables orders_doc) /\ name t = "ORDERS" /\
    truthy "ORDERS" = true /\ base_table t = Some bt /\
    truthy (database bt) = true /\ truthy (schema bt) = true /\
    truthy (table bt) = true /\
    "DB.SCH.ORDERS_TBL" = database bt ++ "." ++ schema bt ++ "." ++ table bt) /\
  (exists cols,
     dict_get "T1" (build_logical_to_physical_column_mapping unbound_table_doc)
     = Some cols).
Proof.
  split.
  - apply (proj1 (mapping_builders_physical_reference orders_doc)).
    vm_compute. reflexivity.
  - apply (proj1 (proj2 (proj2
             (mapping_builders_physical_reference unbound_table_doc)))
             (hd orders_table (tables unbound_table_doc))
             {| ce_name := "x"; ce_expr := "X" |});
      simpl; auto.
Defined.

(* ------------------------------------------------------------------ *)
(** ** The two table mappings are inverse *)

Lemma NoDup_map_same {A B} (f : A -> B) (l : list A) x y :
  NoDup (map f l) -> In x l -> In y l -> f x = f y -> x = y.
Proof.
  induction l as [| a l IH]; simpl; [contradiction|].
  intros Hnd Hx Hy Hf. inversion Hnd as [| ? ? Hnin Hnd']; subst.
  destruct Hx as [<- | Hx], Hy as [<- | Hy]; auto.
  - exfalso. apply Hnin. rewrite Hf. apply in_map. exact Hy.
  - exfalso. apply Hnin. rewrite <- Hf. apply in_map. exact Hx.
Qed.

(** C10: when every table has a complete physical reference and both the
    logical names and the physical fully-qualified names are pairwise
    distinct, the logical-to-physical and physical-to-logical table
    mappings are mutual inverses. *)
Theorem table_mappings_inverse (d : Document) :
  (forall t, In t (tables d) -> has_complete_reference t) ->
  NoDup (map name (tables d)) ->
  NoDup (map table_fqn_string (tables d)) ->
  (forall n f, dict_get n (build_logical_to_physical_mapping d) = Some f ->
               dict_get f (build_physical_to_logical_mapping d) = Some n) /\
  (forall f n, dict_get f (build_physical_to_logical_mapping d) = Some n ->
               dict_get n (build_logical_to_physical_mapping d) = Some f).
Proof.
  intros _ Hnames Hfqns. split.
  - intros n f H.
    destruct (insert_entries_sound _ _ _ _ _ H) as [H0 | [t [Ht He]]];
      [discriminate|].
    destruct (table_physical_fqn t) as [f'|] eqn:Ef; [|discriminate].
    inversion He; subst n f'.
    apply (insert_entries_complete _ _ _ t); [exact Ht | rewrite Ef; reflexivity|].
    intros y v' Hy Hey.
    destruct (table_physical_fqn y) as [g|] eqn:Eg; [|discriminate].
    inversion Hey; subst g v'.
    assert (y = t) as ->; [|reflexivity].
    apply (NoDup_map_same table_fqn_string (tables d)); auto.
    rewrite (table_physical_fqn_string _ _ Eg), (table_physical_fqn_string _ _ Ef).
    reflexivity.
  - intros f n H.
    destruct (insert_entries_sound _ _ _ _ _ H) as [H0 | [t [Ht He]]];
      [discriminate|].
    destruct (table_physical_fqn t) as [f'|] eqn:Ef; [|discriminate].
    inversion He; subst n f'.
    apply (insert_entries_complete _ _ _ t); [exact Ht | rewrite Ef; reflexivity|].
    intros y v' Hy Hey.
    destruct (table_physical_fqn y) as [g|] eqn:Eg; [|discriminate].
    inversion Hey; subst v'.
    assert (y = t) as ->; [|congruence].
    apply (NoDup_map_same name (tables d)); auto.
Qed.

Lemma table_mappings_inverse_witness :
  (forall n f, dict_get n (build_logical_to_physical_mapping orders_doc) = Some f ->
               dict_get f (build_physical_to_logical_mapping orders_doc) = Some n) /\
  (forall f n, dict_get f (build_physical_to_logical_mapping orders_doc) = Some n ->
               dict_get n (build_logical_to_physical_mapping orders_doc) = Some f).
Proof.
  apply table_mappings_inverse.
  - intros t Ht. simpl in Ht.
    destruct Ht as [<- | [<- | []]]; eexists; repeat split.
  - vm_compute. repeat constructor; simpl; intuition discriminate.
  - vm_compute. repeat constructor; simpl; intuition discriminate.
Defined.

(* ------------------------------------------------------------------ *)
(** ** Uniqueness threshold *)

Lemma qualifies_antitone d r t1 t2 :
  (t1 <= t2)%Q -> qualifies d r t2 = true -> qualifies d r t1 = true.
Proof.
  unfold qualifies. intros Ht H. apply andb_true_iff in H as [Hr Hq].
  rewrite Hr. simpl. apply Qle_bool_iff. apply Qle_bool_iff in Hq.
  eapply Qle_trans; eassumption.
Qed.

Lemma fold_left_append_filter {A B} (p : A -> bool) (f : A -> B) xs acc :
  fold_left (fun acc x => if p x then (acc ++ [f x])%list else acc) xs acc =
  (acc ++ map f (filter p xs))%list.
Proof.
  revert acc. induction xs as [| x xs IH]; intros acc; simpl.
  - rewrite app_nil_r. reflexivity.
  - destruct (p x); rewrite IH; [|reflexivity].
    rewrite <- app_assoc. reflexivity.
Qed.

Lemma find_single_column_keys_filter card columns row_count thr :
  find_single_column_keys card columns row_count thr =
  map (fun c => make_candidate [c] (card c) row_count "single_column")
    (filter (fun c => qualifies (card c) row_count thr) columns).
Proof.
  unfold find_single_column_keys.
  exact (fold_left_append_filter
           (fun c => qualifies (card c) row_count thr)
           (fun c => make_candidate [c] (card c) row_count "single_column")
           columns []).
Qed.

Lemma find_composite_keys_fold ccard columns row_count thr ns acc :
  fold_left (fun candidates num_cols =>
      fold_left (fun candidates combo =>
          if qualifies (ccard combo) row_count thr
          then (candidates ++ [make_candidate combo (ccard combo) row_count
                     (nat_to_string num_cols ++ "_column_composite")])%list
          else candidates)
        (combinations columns num_cols) candidates) ns acc =
  (acc ++ flat_map (fun num_cols =>
      map (fun combo => make_candidate combo (ccard combo) row_count
                          (nat_to_string num_cols ++ "_column_composite"))
        (filter (fun combo => qualifies (ccard combo) row_count thr)
           (combinations columns num_cols))) ns)%list.
Proof.
  revert acc. induction ns as [| n ns IH]; intros acc;
    cbn [fold_left flat_map].
  - rewrite app_nil_r. reflexivity.
  - rewrite (fold_left_append_filter
               (fun combo => qualifies (ccard combo) row_count thr)
               (fun combo => make_candidate combo (ccard combo) row_count
                               (nat_to_string n ++ "_column_composite"))).
    rewrite IH, app_assoc. reflexivity.
Qed.

Lemma find_composite_keys_filter ccard columns row_count max_cols thr :
  find_composite_keys ccard columns row_count max_cols thr =
  flat_map (fun num_cols =>
      map (fun combo => make_candidate combo (ccard combo) row_count
                          (nat_to_string num_cols ++ "_column_composite"))
        (filter (fun combo => qualifies (ccard combo) row_count thr)
           (combinations columns num_cols)))
    (seq 2 (max_cols - 1)).
Proof.
  unfold find_composite_keys. cbv zeta.
  rewrite find_composite_keys_fold. reflexivity.
Qed.

Lemma filter_antitone {A} (p1 p2 : A -> bool) xs :
  (forall x, p2 x = true -> p1 x = true) ->
  List.length (filter p2 xs) <= List.length (filter p1 xs) /\
  (forall x, In x (filter p2 xs) -> In x (filter p1 xs)).
Proof.
  intros Himp. split.
  - induction xs as [| x xs IH]; simpl; [lia|].
    destruct (p2 x) eqn:E2.
    + rewrite (Himp x E2). simpl. lia.
    + destruct (p1 x); simpl; lia.
  - intros x Hx. apply filter_In in Hx as [Hin Hp].
    apply filter_In. auto.
Qed.

(** C9: with the table, the row count and each candidate's distinct count
    fixed, raising the uniqueness threshold never adds a qualifying
    candidate: the candidates found at the higher threshold are among
    those found at the lower one, and there are no more of them, for both
    single-column and composite candidates. *)
Theorem key_candidates_antitone_in_threshold
    (get_column_cardinality : string -> nat)
    (get_composite_cardinality : list string -> nat)
    (columns : list string) (row_count max_cols : nat) (t1 t2 : Q) :
  (t1 <= t2)%Q ->
  (List.length (find_single_column_keys get_column_cardinality columns
                  row_count t2)
   <= List.length (find_single_column_keys get_column_cardinality columns
                     row_count t1) /\
   forall k, In k (find_single_column_keys get_column_cardinality columns
                     row_count t2) ->
             In k (find_single_column_keys get_column_cardinality columns
                     row_count t1)) /\
  (List.length (find_composite_keys get_composite_cardinality columns
                  row_count max_cols t2)
   <= List.length (find_composite_keys get_composite_cardinality columns
                     row_count max_cols t1) /\
   forall k, In k (find_composite_keys get_composite_cardinality columns
                     row_count max_cols t2) ->
             In k (find_composite_keys get_composite_cardinality columns
                     row_count max_cols t1)).
Proof.
  intros Ht. rewrite !find_single_column_keys_filter,
    !find_composite_keys_filter.
  split.
  - destruct (filter_antitone
                (fun c => qualifies (get_column_cardinality c) row_count t1)
                (fun c => qualifies (get_column_cardinality c) row_count t2)
                columns (fun c => qualifies_antitone _ _ _ _ Ht)) as [Hl Hi].
    split.
    + rewrite !length_map. exact Hl.
    + intros k Hk. apply in_map_iff in Hk as [c [<- Hc]].
      apply in_map_iff. exists c. auto.
  - generalize (seq 2 (max_cols - 1)) as ns. intros ns.
    induction ns as [| n ns [IHl IHi]]; simpl; [split; [lia | auto]|].
    destruct (filter_antitone
                (fun combo => qualifies (get_composite_cardinality combo)
                                row_count t1)
                (fun combo => qualifies (get_composite_cardinality combo)
                                row_count t2)
                (combinations columns n)
                (fun c => qualifies_antitone _ _ _ _ Ht)) as [Hl Hi].
    split.
    + rewrite !length_app, !length_map. lia.
    + intros k Hk. apply in_app_or in Hk as [Hk | Hk]; apply in_or_app.
      * left. apply in_map_iff in Hk as [c [<- Hc]].
        apply in_map_iff. exists c. auto.
      * right. auto.
Qed.

Lemma key_candidates_antitone_in_threshold_witness :
  let card := fun c : string => if String.eqb c "order_id" then 100 else 40 in
  let ccard := fun _ : list string => 97 in
  (List.length (find_single_column_keys card ["order_id"; "customer_id"] 100
                  (99 # 100))
   <= List.length (find_single_column_keys card ["order_id"; "customer_id"] 100
                     (95 # 100)) /\
   forall k, In k (find_single_column_keys card ["order_id"; "customer_id"] 100
                     (99 # 100)) ->
             In k (find_single_column_keys card ["order_id"; "customer_id"] 100
                     (95 # 100))) /\
  (List.length (find_composite_keys ccard ["order_id"; "customer_id"] 100 3
                  (99 # 100))
   <= List.length (find_composite_keys ccard ["order_id"; "customer_id"] 100 3
                     (95 # 100)) /\
   forall k, In k (find_composite_keys ccard ["order_id"; "customer_id"] 100 3
                     (99 # 100)) ->
             In k (find_composite_keys ccard ["order_id"; "customer_id"] 100 3
                     (95 # 100))).
Proof.
  intros card ccard.
  apply key_candidates_antitone_in_threshold.
  apply Qle_bool_iff. vm_compute. reflexivity.
Defined.

(* ------------------------------------------------------------------ *)
(** ** Key-candidate scoring *)

(** C8, as stated: a nullable [DATE] column named [ORDER_DATE] earns +2
    for its name and +2 more for its type, so its score is 4 where the
    claimed composition gives 2. With a 50% null rate the source keeps it
    (4 - 2 = 2), while the claimed score would drop it (2 - 2 = 0). *)
Lemma key_candidate_score_counterexample :
  key_candidate_score order_date_column = 4%Z /\
  claimed_key_candidate_score order_date_column = 2%Z /\
  fst (filter_key_candidate_columns (fun _ => 1 # 2) [order_date_column])
    = ["ORDER_DATE"] /\
  (claimed_key_candidate_score order_date_column - 2 < 2)%Z.
Proof. vm_compute. repeat split; reflexivity. Qed.

(** C8 (amended): the score is the sum of independent terms (+3 for an
    [_ID]/[ID] name, +3 more for a [_KEY]/[KEY] name, +2 for a date/time
    name token, +1 for a NUMBER/INT type, +2 more for a date/time type,
    for VARCHAR/TEXT types -2 if the name has a NAME, DESCRIPTION,
    COMMENT, TEXT or CONTENT token and +1 otherwise, -1 for
    FLOAT/DOUBLE/DECIMAL types, +1 for NOT NULL). Exactly the columns
    scoring at least 2 get a null-rate query, in order, and a column is
    kept iff its score is at least 2 and stays at least 2 after the -2
    penalty for a null rate above 10%. *)
Theorem filter_key_candidate_columns_scoring
    (get_null_percentage : string -> Q) (columns_metadata : list ColumnMeta) :
  (forall c,
     let col_name := str_upper (cm_name c) in
     let dt := str_upper (data_type c) in
     key_candidate_score c =
       ((if contains "_ID" col_name || ends_with "ID" col_name then 3 else 0)
        + (if contains "_KEY" col_name || ends_with "KEY" col_name then 3 else 0)
        + (if any_in ["DATE"; "TIME"; "TIMESTAMP"; "DS"; "DT"] col_name
           then 2 else 0)
        + (if contains "NUMBER" dt || contains "INT" dt then 1 else 0)
        + (if contains "DATE" dt || contains "TIME" dt || contains "TIMESTAMP" dt
           then 2 else 0)
        + (if contains "VARCHAR" dt || contains "TEXT" dt then
             if any_in ["NAME"; "DESCRIPTION"; "COMMENT"; "TEXT"; "CONTENT"]
                  col_name then -2 else 1
           else 0)
        + (if contains "FLOAT" dt || contains "DOUBLE" dt
              || contains "DECIMAL" dt then -1 else 0)
        + (if negb (nullable c) then 1 else 0))%Z) /\
  filter_key_candidate_columns get_null_percentage columns_metadata =
  (map cm_name
     (filter (fun c =>
        let score := key_candidate_score c in
        (2 <=? score)%Z &&
        (2 <=? (if negb (Qle_bool (get_null_percentage (cm_name c)) (1 # 10))
                then score - 2 else score))%Z) columns_metadata),
   map cm_name
     (filter (fun c => (2 <=? key_candidate_score c)%Z) columns_metadata)).
Proof.
  split.
  - intros c col_name dt. unfold key_candidate_score. fold col_name dt.
    repeat match goal with
           | |- context [if ?b then _ else _] => destruct b
           end; lia.
  - induction columns_metadata as [| c cs IH]; [reflexivity|].
    simpl. rewrite IH.
    destruct (2 <=? key_candidate_score c)%Z; simpl; [|reflexivity].
    destruct (2 <=? (if negb (Qle_bool (get_null_percentage (cm_name c)) (1 # 10))
                     then key_candidate_score c - 2
                     else key_candidate_score c))%Z; reflexivity.
Qed.

(* ------------------------------------------------------------------ *)
(** ** CTE references in the rewrite passes *)

(** A column qualified directly by a CTE name is left alone by the
    column pass. *)
Lemma l2p_column_node_cte_qualified cte_names alias_to_table rev cm from
    table_ref col_name :
  truthy table_ref = true -> mem_str table_ref cte_names = true ->
  l2p_column_node cte_names alias_to_table rev cm from table_ref col_name =
  EColumn table_ref col_name.
Proof.
  intros Ht Hc. unfold l2p_column_node, is_referencing_cte.
  rewrite Ht, Hc. simpl. rewrite orb_true_r. reflexivity.
Qed.

Lemma cte_direct_reference_untouched :
  let tm := build_logical_to_physical_mapping orders_doc in
  let cm := build_logical_to_physical_column_mapping orders_doc in
  resolve_logical_to_physical_column_names_ast
    (resolve_logical_to_physical_table_names_ast cte_direct_query tm) tm cm
  = cte_direct_query.
Proof. vm_compute. reflexivity. Qed.

(** C3, at the failing input: in
    [WITH c AS (SELECT 1 AS x) SELECT orders.x FROM c AS orders], the
    reference [orders.x] is bound to the CTE [c] through its alias. The
    table pass leaves the statement alone, but the column pass resolves
    the alias [orders] as the logical table [ORDERS] (the alias map skips
    CTE tables) and replaces [orders.x] by that table's physical column
    [X_PHYS]. *)
Theorem cte_alias_reference_rewritten :
  let tm := build_logical_to_physical_mapping orders_doc in
  let cm := build_logical_to_physical_column_mapping orders_doc in
  collect_cte_names cte_alias_query = ["c"] /\
  resolve_logical_to_physical_table_names_ast cte_alias_query tm
    = cte_alias_query /\
  resolve_logical_to_physical_column_names_ast
    (resolve_logical_to_physical_table_names_ast cte_alias_query tm) tm cm
  = QSelect [("c", QSelect [] [EAlias (ELit "1") "x"] None [] None)]
      [EColumn "" "X_PHYS"]
      (Some {| t_this := "c"; t_db := ""; t_catalog := "";
               t_alias := "orders" |}) [] None.
Proof. vm_compute. repeat split. Qed.

(* ------------------------------------------------------------------ *)
(** ** Physical-to-logical table pass *)

Lemma count_dots_app a b : count_dots (a ++ b) = count_dots a + count_dots b.
Proof. induction a; simpl; [reflexivity|]. rewrite IHa. lia. Qed.

Lemma ascii_lower_dot c : Ascii.eqb (ascii_lower c) "." = Ascii.eqb c ".".
Proof. destruct c as [[] [] [] [] [] [] [] []]; reflexivity. Qed.

Lemma ascii_upper_dot c : Ascii.eqb (ascii_upper c) "." = Ascii.eqb c ".".
Proof. destruct c as [[] [] [] [] [] [] [] []]; reflexivity. Qed.

Lemma count_dots_lower s : count_dots (str_lower s) = count_dots s.
Proof. induction s; simpl; [reflexivity|]. now rewrite ascii_lower_dot, IHs. Qed.

Lemma count_dots_upper s : count_dots (str_upper s) = count_dots s.
Proof. induction s; simpl; [reflexivity|]. now rewrite ascii_upper_dot, IHs. Qed.

(** Every key of the physical-to-logical table mapping has two dots or
    more. *)
Lemma physical_to_logical_keys_dotted d k v :
  dict_get k (build_physical_to_logical_mapping d) = Some v ->
  2 <= count_dots k.
Proof.
  intros H.
  destruct (insert_entries_sound _ _ _ _ _ H) as [H0 | [t [_ He]]];
    [discriminate|].
  destruct (table_physical_fqn t) as [f|] eqn:Ef; [|discriminate].
  inversion He; subst k.
  destruct (table_physical_fqn_complete t f Ef) as [bt [_ [_ [_ [_ [_ ->]]]]]].
  rewrite !count_dots_app. simpl. lia.
Qed.

(** A table node without a catalog, whose schema and name have no dot,
    is never matched by the physical-to-logical table pass, whatever the
    document: its name as written has at most one dot, and every key of the
    mapping has two. So neither a bare physical table name nor a
    schema-qualified one is rewritten. *)
Lemma p2l_table_node_partial_unmatched d cte_names t :
  t_catalog t = "" -> count_dots (t_db t) = 0 -> count_dots (t_this t) = 0 ->
  p2l_table_node cte_names (build_physical_to_logical_mapping d) t = t.
Proof.
  intros Hc Hdb Hthis.
  assert (Hfqn : count_dots (build_fqn_from_table_node t) <= 1).
  { unfold build_fqn_from_table_node. rewrite Hc. simpl.
    destruct (truthy (t_db t) && truthy (t_this t)).
    - rewrite !count_dots_app. simpl. lia.
    - destruct (truthy (t_this t)); simpl; lia. }
  unfold p2l_table_node.
  destruct (negb (truthy (t_this t)) || mem_str (t_this t) cte_names);
    [reflexivity|].
  destruct (negb (truthy (build_fqn_from_table_node t))); [reflexivity|].
  rewrite case_insensitive_lookup_unfold.
  set (fqn := build_fqn_from_table_node t) in *.
  destruct (dict_get fqn _) as [v|] eqn:E1.
  { apply physical_to_logical_keys_dotted in E1. lia. }
  destruct (dict_get (str_lower fqn) _) as [v|] eqn:E2.
  { apply physical_to_logical_keys_dotted in E2. rewrite count_dots_lower in E2.
    lia. }
  destruct (dict_get (str_upper fqn) _) as [v|] eqn:E3.
  { apply physical_to_logical_keys_dotted in E3. rewrite count_dots_upper in E3.
    lia. }
  reflexivity.
Qed.

(** C7, at the failing input: with [ORDERS] mapped to
    [DB.SCH.ORDERS_TBL], [SELECT 1 FROM ORDERS_TBL] comes out of the
    physical-to-logical table pass unchanged (the bare physical name is
    not matched), while the fully-qualified [DB.SCH.ORDERS_TBL] is
    rewritten to [ORDERS]. *)
Theorem p2l_table_pass_bare_physical_name_unmatched :
  let rev := build_physical_to_logical_mapping orders_doc in
  resolve_physical_to_logical_table_names_ast bare_physical_query rev
    = bare_physical_query /\
  resolve_physical_to_logical_table_names_ast qualified_physical_query rev
    = QSelect [] [ELit "1"]
        (Some {| t_this := "ORDERS"; t_db := ""; t_catalog := "";
                 t_alias := "" |}) [] None.
Proof. vm_compute. split; reflexivity. Qed.

(* ------------------------------------------------------------------ *)
(** ** More of the code: properties beyond the specification *)
Lemma find_first {A} (p : A -> bool) (l : list A) x :
  find p l = Some x <->
  exists pre post, l = (pre ++ x :: post)%list /\ p x = true /\
    forall y, In y pre -> p y = false.
Proof.
  split.
  - induction l as [| a l IH]; simpl; [discriminate|].
    destruct (p a) eqn:Ea.
    + intros H; inversion H; subst. exists [], l. simpl.
      split; [reflexivity|]. split; [exact Ea|]. intros y [].
    + intros H. destruct (IH H) as [pre [post [-> [Hx Hpre]]]].
      exists (a :: pre), post. simpl. split; [reflexivity|]. split; [exact Hx|].
      intros y [<- | Hy]; auto.
  - intros [pre [post [-> [Hx Hpre]]]]. induction pre as [| a pre IH]; simpl.
    + rewrite Hx. reflexivity.
    + rewrite (Hpre a (or_introl eq_refl)). apply IH.
      intros y Hy. apply Hpre. right. exact Hy.
Qed.

Lemma find_none_iff {A} (p : A -> bool) (l : list A) :
  find p l = None <-> forall y, In y l -> p y = false.
Proof.
  split; [apply find_none|].
  induction l as [| a l IH]; simpl; intros H; [reflexivity|].
  rewrite (H a (or_introl eq_refl)). apply IH. auto.
Qed.

Lemma mem_str_In x l : mem_str x l = true <-> In x l.
Proof.
  unfold mem_str. rewrite existsb_exists. split.
  - intros [y [Hy He]]. apply String.eqb_eq in He. subst. exact Hy.
  - intros H. exists x. split; [exact H | apply String.eqb_refl].
Qed.

(** X1: [get_table] returns the first table of the document whose name equals [table_name] up to case, and [None] exactly when no table name does. *)
Theorem get_table_first_match (d : Document) (table_name : string) :
  (forall t, get_table d table_name = Some t <->
     exists pre post, tables d = (pre ++ t :: post)%list /\
       str_lower (name t) = str_lower table_name /\
       forall u, In u pre -> str_lower (name u) <> str_lower table_name) /\
  (get_table d table_name = None <->
     forall t, In t (tables d) -> str_lower (name t) <> str_lower table_name).
Proof.
  unfold get_table. split.
  - intros t. rewrite find_first. split.
    + intros [pre [post [Hl [Ht Hpre]]]]. exists pre, post.
      split; [exact Hl|]. split; [apply String.eqb_eq; exact Ht|].
      intros u Hu He. apply String.eqb_eq in He. rewrite Hpre in He; auto.
      discriminate.
    + intros [pre [post [Hl [Ht Hpre]]]]. exists pre, post.
      split; [exact Hl|]. split; [apply String.eqb_eq; exact Ht|].
      intros u Hu. apply String.eqb_neq. auto.
  - rewrite find_none_iff. split; intros H t Ht.
    + intros He. apply String.eqb_eq in He. rewrite H in He; auto. discriminate.
    + apply String.eqb_neq. auto.
Qed.

(** X2: [validate_columns_exist] reports success exactly when its missing list is empty, and a column is missing exactly when it is one of the requested columns and no dimension, fact or time dimension of the table has its name up to case. *)
Theorem validate_columns_exist_missing (t : SemanticTable) (columns : list string) :
  (fst (validate_columns_exist t columns) = true <->
   snd (validate_columns_exist t columns) = []) /\
  (forall c, In c (snd (validate_columns_exist t columns)) <->
     In c columns /\
     forall e, In e (dimensions t ++ facts t ++ time_dimensions t)%list ->
       str_lower (ce_name e) <> str_lower c).
Proof.
  unfold validate_columns_exist. simpl. split.
  - rewrite Nat.eqb_eq, length_zero_iff_nil. reflexivity.
  - intros c. rewrite filter_In. rewrite negb_true_iff.
    split.
    + intros [Hc Hm]. split; [exact Hc|]. intros e He Heq.
      assert (mem_str (str_lower c) (map (fun e => str_lower (ce_name e))
                (dimensions t ++ facts t ++ time_dimensions t)%list) = true)
        as Hm'.
      { apply mem_str_In. apply in_map_iff. exists e. auto. }
      congruence.
    + intros [Hc Hn]. split; [exact Hc|].
      destruct (mem_str _ _) eqn:Hm; [|reflexivity].
      apply mem_str_In, in_map_iff in Hm as [e [He Hin]].
      exfalso. exact (Hn e Hin He).
Qed.

Lemma get_physical_column_name_none t c :
  get_physical_column_name t c = None <->
  forall e, In e (dimensions t ++ facts t ++ time_dimensions t)%list ->
    str_lower (ce_name e) <> str_lower c.
Proof.
  unfold get_physical_column_name.
  set (p := fun e : ColumnEntry => String.eqb (str_lower (ce_name e)) (str_lower c)).
  assert (Hp : forall l, find p l = None <->
                 forall e, In e l -> str_lower (ce_name e) <> str_lower c).
  { intros l. rewrite find_none_iff. unfold p.
    split; intros H e He; [intros Heq; apply String.eqb_eq in Heq; rewrite H in Heq; auto; discriminate|].
    apply String.eqb_neq. auto. }
  split.
  - destruct (find p (dimensions t)) eqn:E1; [discriminate|].
    destruct (find p (facts t)) eqn:E2; [discriminate|].
    destruct (find p (time_dimensions t)) eqn:E3; [discriminate|].
    intros _ e He. rewrite !in_app_iff in He.
    destruct He as [He | [He | He]]; [apply (proj1 (Hp _) E1) | apply (proj1 (Hp _) E2) | apply (proj1 (Hp _) E3)]; exact He.
  - intros H.
    rewrite (proj2 (Hp (dimensions t))), (proj2 (Hp (facts t))),
      (proj2 (Hp (time_dimensions t))); [reflexivity| | |];
      intros e He; apply H; rewrite !in_app_iff; auto.
Qed.

(** X3: [validate_columns_exist] succeeds exactly when [get_physical_column_name] finds every requested column. *)
Theorem validate_columns_exist_physical_names (t : SemanticTable)
    (columns : list string) :
  fst (validate_columns_exist t columns) = true <->
  Forall (fun c => get_physical_column_name t c <> None) columns.
Proof.
  rewrite (proj1 (validate_columns_exist_missing t columns)).
  rewrite Forall_forall. split.
  - intros Hnil c Hc Hn. rewrite get_physical_column_name_none in Hn.
    assert (In c (snd (validate_columns_exist t columns))) as Hm.
    { apply (proj2 (validate_columns_exist_missing t columns)). auto. }
    rewrite Hnil in Hm. exact Hm.
  - intros H. destruct (snd (validate_columns_exist t columns)) as [| c l] eqn:E;
      [reflexivity|].
    assert (In c (snd (validate_columns_exist t columns))) as Hm.
    { rewrite E. left. reflexivity. }
    apply (proj2 (validate_columns_exist_missing t columns)) in Hm as [Hc Hn].
    exfalso. apply (H c Hc). apply get_physical_column_name_none. exact Hn.
Qed.

(** X4: every value of the logical-to-physical table mapping is the [get_physical_table_fqn] of a table of the document carrying that logical name; a table without [base_table] gets [".."] from [get_physical_table_fqn]. *)
Theorem get_physical_table_fqn_mapping (d : Document) :
  (forall n f, dict_get n (build_logical_to_physical_mapping d) = Some f ->
     exists t, In t (tables d) /\ name t = n /\ get_physical_table_fqn t = f) /\
  (forall t, base_table t = None -> get_physical_table_fqn t = "..").
Proof.
  split.
  - intros n f H.
    destruct (insert_entries_sound _ _ _ _ _ H) as [H0 | [t [Ht He]]];
      [discriminate|].
    destruct (table_physical_fqn t) as [f'|] eqn:Ef; [|discriminate].
    inversion He; subst n f'.
    destruct (table_physical_fqn_complete t f Ef)
      as [bt [Hb [_ [_ [_ [_ ->]]]]]].
    exists t. split; [exact Ht|]. split; [reflexivity|].
    unfold get_physical_table_fqn. rewrite Hb. reflexivity.
  - intros t Hb. unfold get_physical_table_fqn. rewrite Hb. reflexivity.
Qed.

Lemma get_unique_key_columns_nonempty t :
  Forall (fun s => s <> []) (get_unique_key_columns t).
Proof.
  unfold get_unique_key_columns.
  assert (H : forall uks acc, Forall (fun s : list string => s <> []) acc ->
    Forall (fun s => s <> [])
      (fold_left (fun acc columns =>
                    match columns with
                    | [] => acc
                    | _ => (acc ++ [lower_set columns])%list
                    end) uks acc)).
  { induction uks as [| cols uks IH]; intros acc Hacc; simpl; [exact Hacc|].
    apply IH. destruct cols as [| c cs]; [exact Hacc|].
    apply Forall_app. split; [exact Hacc|]. constructor; [discriminate|constructor]. }
  apply H. constructor.
Qed.

Lemma get_all_constraint_sets_nonempty t :
  Forall (fun s => s <> []) (get_all_constraint_sets t).
Proof.
  unfold get_all_constraint_sets. apply Forall_app. split.
  - destruct (get_primary_key_columns t) as [| c cs]; constructor;
      [discriminate | constructor].
  - apply get_unique_key_columns_nonempty.
Qed.

Lemma has_constraint_on_no_columns cs :
  Forall (fun s => s <> []) cs -> has_constraint_on_columns cs [] = false.
Proof.
  intros H. unfold has_constraint_on_columns. apply not_true_iff_false.
  intros Hx. apply existsb_exists in Hx as [s [Hs Hsub]].
  rewrite Forall_forall in H. specialize (H s Hs).
  destruct s as [| c s]; [contradiction|]. discriminate.
Qed.

(** X5: every constraint set a table declares is non-empty, so [infer_relationship_type] with no join columns rejects the relationship as many-to-many. *)
Theorem infer_relationship_type_no_join_columns (left_tbl right_tbl : SemanticTable) :
  Forall (fun s => s <> []) (get_all_constraint_sets left_tbl) /\
  fst (infer_relationship_type left_tbl right_tbl [] []) = "many_to_many (rejected)".
Proof.
  split; [apply get_all_constraint_sets_nonempty|].
  unfold infer_relationship_type. cbv zeta. unfold lower_set at 1 2. simpl map.
  rewrite !has_constraint_on_no_columns by apply get_all_constraint_sets_nonempty.
  reflexivity.
Qed.

(** X6: when the right table has a primary or unique key contained in the right join columns, [infer_relationship_type] builds the relationship [<left>_TO_<right>] from the left to the right table, pairing the join columns positionally, typed one-to-one if the left columns also cover a key and many-to-one otherwise. *)
Theorem infer_relationship_type_right_covered
    (left_tbl right_tbl : SemanticTable) (left_cols right_cols : list string) :
  has_constraint_on_columns (get_all_constraint_sets right_tbl)
    (lower_set right_cols) = true ->
  exists rel,
    infer_relationship_type left_tbl right_tbl left_cols right_cols
      = (relationship_type rel, PRelationship rel) /\
    left_table rel = name left_tbl /\ right_table rel = name right_tbl /\
    rel_name rel = name left_tbl ++ "_TO_" ++ name right_tbl /\
    relationship_columns rel =
      map (fun '(lc, rc) => {| left_column := lc; right_column := rc |})
        (combine left_cols right_cols) /\
    (relationship_type rel = "one_to_one" <->
     has_constraint_on_columns (get_all_constraint_sets left_tbl)
       (lower_set left_cols) = true) /\
    (relationship_type rel = "many_to_one" <->
     has_constraint_on_columns (get_all_constraint_sets left_tbl)
       (lower_set left_cols) = false).
Proof.
  intros Hr. unfold infer_relationship_type. cbv zeta. rewrite Hr.
  destruct (has_constraint_on_columns (get_all_constraint_sets left_tbl)
              (lower_set left_cols)) eqn:Hl; simpl.
  all: match goal with
       | |- exists rel, (_, PRelationship ?r) = _ /\ _ => exists r
       end; simpl.
  all: repeat split; try reflexivity; discriminate.
Qed.

Lemma has_constraint_on_columns_members cs j1 j2 :
  (forall c, In c j1 <-> In c j2) ->
  has_constraint_on_columns cs j1 = has_constraint_on_columns cs j2.
Proof.
  intros H. unfold has_constraint_on_columns, issubset.
  assert (Hm : forall c, mem_str c j1 = mem_str c j2).
  { intros c. destruct (mem_str c j1) eqn:E1, (mem_str c j2) eqn:E2;
      try reflexivity.
    - apply mem_str_In, H, mem_str_In in E1. congruence.
    - apply mem_str_In, H, mem_str_In in E2. congruence. }
  induction cs as [| s cs IH]; simpl; [reflexivity|]. rewrite IH.
  f_equal. induction s as [| c s IHs]; simpl; [reflexivity|].
  rewrite Hm, IHs. reflexivity.
Qed.

(** X7: the relationship type [infer_relationship_type] infers depends only on the sets of lower-cased join columns: order, case and repetitions of the columns do not change it. *)
Theorem infer_relationship_type_depends_on_column_sets
    (left_tbl right_tbl : SemanticTable)
    (left_cols1 right_cols1 left_cols2 right_cols2 : list string) :
  (forall c, In c (lower_set left_cols1) <-> In c (lower_set left_cols2)) ->
  (forall c, In c (lower_set right_cols1) <-> In c (lower_set right_cols2)) ->
  fst (infer_relationship_type left_tbl right_tbl left_cols1 right_cols1) =
  fst (infer_relationship_type left_tbl right_tbl left_cols2 right_cols2).
Proof.
  intros Hl Hr. unfold infer_relationship_type. cbv zeta.
  rewrite (has_constraint_on_columns_members _ _ _ Hl),
    (has_constraint_on_columns_members _ _ _ Hr).
  destruct (has_constraint_on_columns _ (lower_set left_cols2)),
    (has_constraint_on_columns _ (lower_set right_cols2)); reflexivity.
Qed.

(* split / parse *)
Lemma str_app_nil s : (s ++ "")%string = s.
Proof. induction s; simpl; [reflexivity|]. now rewrite IHs. Qed.

Lemma str_app_assoc a b c : ((a ++ b) ++ c)%string = (a ++ (b ++ c))%string.
Proof. induction a; simpl; [reflexivity|]. now rewrite IHa. Qed.

Lemma count_dots_char_free ch s :
  count_dots (String ch s) = 0 -> Ascii.eqb ch "." = false /\ count_dots s = 0.
Proof. simpl. destruct (Ascii.eqb ch "."); simpl; intros H; [discriminate|]. auto. Qed.

Lemma split_dot_aux_dot_free cur a rest :
  count_dots a = 0 ->
  split_dot_aux cur (a ++ rest) = split_dot_aux (cur ++ a) rest.
Proof.
  revert cur. induction a as [| ch a IH]; intros cur Ha.
  - simpl. now rewrite str_app_nil.
  - apply count_dots_char_free in Ha as [Hch Ha].
    simpl. rewrite Hch, IH by exact Ha. rewrite str_app_assoc. reflexivity.
Qed.

Lemma split_dot_join a b c :
  count_dots a = 0 -> count_dots b = 0 -> count_dots c = 0 ->
  split_dot (a ++ "." ++ b ++ "." ++ c) = [a; b; c].
Proof.
  intros Ha Hb Hc. unfold split_dot.
  rewrite split_dot_aux_dot_free by exact Ha. simpl.
  rewrite split_dot_aux_dot_free by exact Hb. simpl.
  rewrite <- (str_app_nil c) at 1.
  rewrite split_dot_aux_dot_free by exact Hc. simpl. reflexivity.
Qed.

Lemma split_dot_aux_not_nil cur s : split_dot_aux cur s <> [].
Proof.
  revert cur. induction s as [| ch s IH]; intros cur; simpl; [discriminate|].
  destruct (Ascii.eqb ch "."); [discriminate | apply IH].
Qed.

Lemma split_dot_aux_pieces cur s :
  count_dots cur = 0 ->
  Forall (fun p => count_dots p = 0) (split_dot_aux cur s) /\
  String.concat "." (split_dot_aux cur s) = (cur ++ s)%string.
Proof.
  revert cur. induction s as [| ch s IH]; intros cur Hcur; simpl.
  - split; [constructor; [exact Hcur | constructor]|]. now rewrite str_app_nil.
  - destruct (Ascii.eqb ch ".") eqn:Ech.
    + apply Ascii.eqb_eq in Ech. subst ch.
      destruct (IH "" eq_refl) as [Hf Hc]. split; [constructor; assumption|].
      assert (Hcons : forall x l, l <> [] ->
        String.concat "." (x :: l) = (x ++ "." ++ String.concat "." l)%string).
      { intros x [| y l] Hl; [contradiction Hl; reflexivity | reflexivity]. }
      rewrite Hcons by apply split_dot_aux_not_nil. rewrite Hc. reflexivity.
    + assert (Hc' : count_dots (cur ++ String ch "") = 0).
      { rewrite count_dots_app. simpl. rewrite Ech. simpl. lia. }
      destruct (IH _ Hc') as [Hf Hc]. split; [exact Hf|].
      rewrite Hc, str_app_assoc. reflexivity.
Qed.

Lemma split_dot_three s a b c :
  split_dot s = [a; b; c] <->
  s = (a ++ "." ++ b ++ "." ++ c)%string /\
  count_dots a = 0 /\ count_dots b = 0 /\ count_dots c = 0.
Proof.
  split.
  - intros H. destruct (split_dot_aux_pieces "" s eq_refl) as [Hf Hc].
    unfold split_dot in H. rewrite H in Hf, Hc. simpl in Hc.
    inversion Hf as [| ? ? Ha Hf1]; inversion Hf1 as [| ? ? Hb Hf2];
      inversion Hf2 as [| ? ? Hc0 _]; subst.
    auto.
  - intros [-> [Ha [Hb Hc]]]. apply split_dot_join; assumption.
Qed.

(** X8: [parse_table_name] returns [(database, schema, table)] exactly when the name is [database.schema.table] with three dot-free parts. *)
Theorem parse_table_name_round_trip (full_table_name database schema table : string) :
  parse_table_name full_table_name = Some (database, schema, table) <->
  full_table_name = (database ++ "." ++ schema ++ "." ++ table)%string /\
  count_dots database = 0 /\ count_dots schema = 0 /\ count_dots table = 0.
Proof.
  rewrite <- split_dot_three. unfold parse_table_name.
  destruct (split_dot full_table_name) as [| p0 [| p1 [| p2 [| p3 ps]]]];
    split; intros H; try discriminate; inversion H; subst; reflexivity.
Qed.

(** X9: when the null-rate query fails or counts zero rows for every column, [filter_key_candidate_columns] treats each column as fully null and keeps exactly the columns of score at least 4, in order. *)
Theorem filter_key_candidate_columns_null_rate_unavailable
    (null_rate_query : string -> option (Z * Z))
    (columns_metadata : list ColumnMeta) :
  (forall c, In c columns_metadata ->
     match null_rate_query (cm_name c) with
     | None => True
     | Some (total, _) => total = 0%Z
     end) ->
  fst (filter_key_candidate_columns
         (fun col => get_null_percentage_of (null_rate_query col))
         columns_metadata)
  = map cm_name (filter (fun c => (4 <=? key_candidate_score c)%Z)
                   columns_metadata).
Proof.
  induction columns_metadata as [| c cs IH]; intros H; [reflexivity|].
  assert (Hc : get_null_percentage_of (null_rate_query (cm_name c)) = 1%Q).
  { specialize (H c (or_introl eq_refl)). unfold get_null_percentage_of.
    destruct (null_rate_query (cm_name c)) as [[total nn]|]; [|reflexivity].
    subst total. reflexivity. }
  cbn [filter_key_candidate_columns]. rewrite Hc.
  destruct (filter_key_candidate_columns _ cs) as [cands queried] eqn:Ecs.
  assert (IH' : cands = map cm_name (filter (fun c => (4 <=? key_candidate_score c)%Z) cs)).
  { rewrite <- IH; [reflexivity|]. intros c' Hc'. apply H. right. exact Hc'. }
  subst cands. simpl.
  destruct (Z.leb_spec 2 (key_candidate_score c)) as [H2 | H2];
  destruct (Z.leb_spec 4 (key_candidate_score c)) as [H4 | H4]; simpl;
  try (destruct (Z.leb_spec 2 (key_candidate_score c - 2)); simpl);
  try reflexivity; lia.
Qed.


Lemma rank_key_lt_false a b :
  rank_key_lt b a = false -> ranked_before a b.
Proof.
  unfold rank_key_lt, ranked_before. intros H.
  apply orb_false_iff in H as [H1 H2]. apply negb_false_iff, Qle_bool_iff in H1.
  destruct (Qeq_bool (uniqueness_percentage b) (uniqueness_percentage a)) eqn:Eq.
  - apply Qeq_bool_iff in Eq. simpl in H2. apply Nat.ltb_ge in H2.
    right. split; [symmetry; exact Eq | exact H2].
  - left. apply Qle_lteq in H1 as [Hlt | Heq]; [exact Hlt|].
    apply Qeq_bool_iff in Heq. congruence.
Qed.

Lemma rank_key_lt_asym a b :
  rank_key_lt a b = true -> rank_key_lt b a = false.
Proof.
  unfold rank_key_lt. intros H.
  apply orb_true_iff in H as [H | H].
  - apply negb_true_iff in H.
    assert (Hlt : (uniqueness_percentage b < uniqueness_percentage a)%Q).
    { apply Qnot_le_lt. intros Hle. apply Qle_bool_iff in Hle. congruence. }
    apply orb_false_iff. split.
    + apply negb_false_iff, Qle_bool_iff. apply Qlt_le_weak. exact Hlt.
    + apply andb_false_iff. left. apply not_true_iff_false. intros Heq.
      apply Qeq_bool_iff in Heq. rewrite Heq in Hlt. exact (Qlt_irrefl _ Hlt).
  - apply andb_true_iff in H as [Heq Hl]. apply Qeq_bool_iff in Heq.
    apply Nat.ltb_lt in Hl.
    apply orb_false_iff. split.
    + apply negb_false_iff, Qle_bool_iff. rewrite Heq. apply Qle_refl.
    + apply andb_false_iff. right. apply Nat.ltb_ge. lia.
Qed.

Lemma insert_ranked_perm x l : Permutation (insert_ranked x l) (x :: l).
Proof.
  induction l as [| y l IH]; simpl; [reflexivity|].
  destruct (rank_key_lt y x); [|reflexivity].
  etransitivity; [apply perm_skip, IH | apply perm_swap].
Qed.

Lemma insert_ranked_sorted x l :
  Sorted ranked_before l -> Sorted ranked_before (insert_ranked x l).
Proof.
  induction l as [| y l IH]; simpl; intros Hs; [repeat constructor|].
  destruct (rank_key_lt y x) eqn:E.
  - apply Sorted_inv in Hs as [Hs Hhd]. constructor; [apply IH, Hs|].
    pose proof (rank_key_lt_false y x (rank_key_lt_asym _ _ E)) as Hyx.
    destruct l as [| z l]; simpl; [constructor; exact Hyx|].
    destruct (rank_key_lt z x); constructor; [|exact Hyx].
    inversion Hhd; assumption.
  - constructor; [exact Hs|]. constructor. apply rank_key_lt_false. exact E.
Qed.

(** X10: [rank_candidates] reorders its input (a permutation) into descending uniqueness, ties broken by fewer columns first. *)
Theorem rank_candidates_sorted (candidates : list KeyCandidate) :
  Permutation (rank_candidates candidates) candidates /\
  Sorted ranked_before (rank_candidates candidates).
Proof.
  induction candidates as [| c cs [IHp IHs]]; simpl; [split; constructor|].
  split.
  - etransitivity; [apply insert_ranked_perm | apply perm_skip, IHp].
  - apply insert_ranked_sorted, IHs.
Qed.

Lemma combinations_spec {A} (xs : list A) k c :
  In c (combinations xs k) ->
  List.length c = k /\ incl c xs /\ (NoDup xs -> NoDup c).
Proof.
  revert k c. induction xs as [| x xs IH]; intros k c Hc.
  - destruct k; simpl in Hc; [|contradiction].
    destruct Hc as [<- | []]. split; [reflexivity|]. split; [intros a []|].
    intros _. constructor.
  - destruct k as [| k]; simpl in Hc.
    + destruct Hc as [<- | []]. split; [reflexivity|]. split; [intros a []|].
      intros _. constructor.
    + apply in_app_or in Hc as [Hc | Hc].
      * apply in_map_iff in Hc as [c' [<- Hc']].
        destruct (IH _ _ Hc') as [Hl [Hi Hn]]. simpl. split; [lia|].
        split; [apply incl_cons; [left; reflexivity | apply incl_tl, Hi]|].
        intros Hnd. inversion Hnd as [| ? ? Hx Hnd']; subst.
        constructor; [intros Hin; apply Hx, Hi, Hin | apply Hn, Hnd'].
      * destruct (IH _ _ Hc) as [Hl [Hi Hn]]. split; [exact Hl|].
        split; [apply incl_tl, Hi|].
        intros Hnd. inversion Hnd; subst. apply Hn. assumption.
Qed.

(** X11: every candidate of [find_composite_keys] is a combination of 2 to [max_cols] of the given columns (distinct when the columns are), labelled [<n>_column_composite], carrying the row count and the measured distinct count, and meeting the uniqueness threshold. *)
Theorem find_composite_keys_shape
    (get_composite_cardinality : list string -> nat) (columns : list string)
    (row_count max_cols : nat) (uniqueness_threshold : Q) :
  Forall (fun k =>
      exists num_cols, 2 <= num_cols <= max_cols /\
        List.length (kc_columns k) = num_cols /\
        kc_type k = (nat_to_string num_cols ++ "_column_composite")%string /\
        incl (kc_columns k) columns /\
        (NoDup columns -> NoDup (kc_columns k)) /\
        kc_row_count k = row_count /\
        distinct_count k = get_composite_cardinality (kc_columns k) /\
        qualifies (distinct_count k) row_count uniqueness_threshold = true)
    (find_composite_keys get_composite_cardinality columns row_count max_cols
       uniqueness_threshold).
Proof.
  rewrite find_composite_keys_filter. apply Forall_forall. intros k Hk.
  apply in_flat_map in Hk as [n [Hn Hk]].
  apply in_seq in Hn.
  apply in_map_iff in Hk as [combo [<- Hcombo]].
  apply filter_In in Hcombo as [Hcombo Hq].
  destruct (combinations_spec _ _ _ Hcombo) as [Hl [Hi Hnd]].
  exists n. simpl. repeat split; try assumption; lia.
Qed.

Lemma columns_upper_map_fold cols acc k :
  (forall c, dict_get k (fold_left (fun m col => dict_set (str_upper col) col m)
                           cols acc) = Some c ->
     dict_get k acc = Some c \/ (In c cols /\ str_upper c = k)) /\
  (dict_get k (fold_left (fun m col => dict_set (str_upper col) col m) cols acc)
     = None <->
   dict_get k acc = None /\ forall c, In c cols -> str_upper c <> k).
Proof.
  revert acc. induction cols as [| x xs IH]; intros acc; simpl.
  - split; [auto|]. split; [intros H; split; [exact H | intros c []]|].
    intros [H _]. exact H.
  - destruct (IH (dict_set (str_upper x) x acc)) as [IHs IHn]. split.
    + intros c H. destruct (IHs c H) as [H1 | [H1 H2]]; [|right; auto].
      rewrite dict_get_set in H1. destruct (String.eqb k (str_upper x)) eqn:E.
      * apply String.eqb_eq in E. inversion H1; subst. right. auto.
      * left. exact H1.
    + rewrite IHn, dict_get_set. destruct (String.eqb k (str_upper x)) eqn:E.
      * apply String.eqb_eq in E. split; [intros [H _]; discriminate|].
        intros [_ H]. exfalso. apply (H x (or_introl eq_refl)). auto.
      * apply String.eqb_neq in E. split.
        -- intros [H1 H2]. split; [exact H1|]. intros c [<- | Hc]; auto.
        -- intros [H1 H2]. split; [exact H1|]. auto.
Qed.

Lemma split_hint_columns_fold m hs v i :
  fold_left (fun '((valid_hint_columns, invalid_hint_columns)
                   : list string * list string) hint_col =>
      match dict_get (str_upper hint_col) m with
      | Some col => ((valid_hint_columns ++ [col])%list, invalid_hint_columns)
      | None => (valid_hint_columns, (invalid_hint_columns ++ [hint_col])%list)
      end) hs (v, i) =
  ((v ++ flat_map (fun h => match dict_get (str_upper h) m with
                            | Some c => [c] | None => [] end) hs)%list,
   (i ++ filter (fun h => match dict_get (str_upper h) m with
                          | Some _ => false | None => true end) hs)%list).
Proof.
  revert v i. induction hs as [| h hs IH]; intros v i; simpl.
  - rewrite !app_nil_r. reflexivity.
  - destruct (dict_get (str_upper h) m); rewrite IH, <- !app_assoc; reflexivity.
Qed.

(** Every valid hint column is a column matching some hint up to upper
    case; a hint is invalid exactly when it matches no column. *)
Lemma split_hint_columns_members (columns hint_columns : list string) :
  (forall c, In c (fst (split_hint_columns columns hint_columns)) ->
     In c columns /\ exists h, In h hint_columns /\ str_upper h = str_upper c) /\
  (forall h, In h (snd (split_hint_columns columns hint_columns)) <->
     In h hint_columns /\ forall c, In c columns -> str_upper c <> str_upper h) /\
  List.length (fst (split_hint_columns columns hint_columns)) +
  List.length (snd (split_hint_columns columns hint_columns))
  = List.length hint_columns.
Proof.
  unfold split_hint_columns. rewrite split_hint_columns_fold. simpl.
  set (m := columns_upper_map columns).
  assert (Hm : forall k, (forall c, dict_get k m = Some c ->
                            In c columns /\ str_upper c = k) /\
                         (dict_get k m = None <->
                          forall c, In c columns -> str_upper c <> k)).
  { intros k. destruct (columns_upper_map_fold columns [] k) as [Hs Hn].
    split.
    - intros c H. destruct (Hs c H) as [H1 | H1]; [discriminate | exact H1].
    - unfold m, columns_upper_map. rewrite Hn. simpl.
      split; [intros [_ H]; exact H | auto]. }
  split; [|split].
  - intros c Hc. apply in_flat_map in Hc as [h [Hh Hc]].
    destruct (dict_get (str_upper h) m) as [c'|] eqn:E; [|contradiction].
    destruct Hc as [<- | []]. destruct (proj1 (Hm _) c' E) as [Hin Hu].
    split; [exact Hin|]. exists h. auto.
  - intros h. rewrite filter_In.
    destruct (dict_get (str_upper h) m) eqn:E.
    + split; [intros [_ H]; discriminate|].
      intros [_ H]. apply (proj2 (Hm _)) in H. congruence.
    + split; [intros [Hh _]; split; [exact Hh|] | intros [Hh _]; auto].
      apply (proj2 (Hm _)). exact E.
  - clear Hm. induction hint_columns as [| h hs IH]; simpl; [reflexivity|].
    destruct (dict_get (str_upper h) m); simpl; lia.
Qed.

Lemma columns_upper_map_last cols acc k :
  dict_get k (fold_left (fun m col => dict_set (str_upper col) col m) cols acc) =
  match filter (fun c => String.eqb (str_upper c) k) cols with
  | [] => dict_get k acc
  | l => Some (last l "")
  end.
Proof.
  revert acc. induction cols as [| x xs IH]; intros acc; simpl; [reflexivity|].
  rewrite IH, dict_get_set, (String.eqb_sym k).
  destruct (filter (fun c => String.eqb (str_upper c) k) xs) as [| y l] eqn:E;
    destruct (String.eqb (str_upper x) k); reflexivity.
Qed.

(** X12: the hint check of [infer_primary_keys] returns, in hint order,
    for each hint matching some column of the table up to upper case the
    last such column, as the valid hint columns; and, in hint order, the
    hints matching no column, as the invalid ones. *)
Theorem split_hint_columns_spec (columns hint_columns : list string) :
  let matches h c := String.eqb (str_upper c) (str_upper h) in
  split_hint_columns columns hint_columns =
  (map (fun h => last (filter (matches h) columns) "")
       (filter (fun h => existsb (matches h) columns) hint_columns),
   filter (fun h => negb (existsb (matches h) columns)) hint_columns).
Proof.
  intros matches. unfold split_hint_columns. rewrite split_hint_columns_fold.
  simpl. unfold columns_upper_map.
  assert (Hg : forall h, dict_get (str_upper h)
                 (fold_left (fun m col => dict_set (str_upper col) col m) columns [])
               = if existsb (matches h) columns
                 then Some (last (filter (matches h) columns) "") else None).
  { intros h. rewrite columns_upper_map_last. unfold matches.
    destruct (filter (fun c => String.eqb (str_upper c) (str_upper h)) columns)
      as [| y l] eqn:E.
    - destruct (existsb _ columns) eqn:Ex; [|reflexivity].
      apply existsb_exists in Ex as [c [Hc Hm]].
      assert (In c []) as []. rewrite <- E. apply filter_In. auto.
    - destruct (existsb _ columns) eqn:Ex; [reflexivity|].
      assert (Hy : In y (y :: l)) by (left; reflexivity).
      rewrite <- E in Hy. apply filter_In in Hy as [Hy Hm].
      assert (existsb (fun c => String.eqb (str_upper c) (str_upper h)) columns
              = true) by (apply existsb_exists; eauto).
      congruence. }
  f_equal.
  - induction hint_columns as [| h hs IH]; simpl; [reflexivity|].
    rewrite Hg. destruct (existsb (matches h) columns); simpl; rewrite IH; reflexivity.
  - induction hint_columns as [| h hs IH]; simpl; [reflexivity|].
    rewrite Hg. destruct (existsb (matches h) columns); simpl; rewrite IH; reflexivity.
Qed.

(** X13: the candidates [infer_primary_keys] returns are ranked, come from a table with rows, meet the uniqueness threshold, use only the table's columns, are single columns when no hint is given, and use only hinted columns when hints are given. *)
Theorem infer_primary_key_candidates_sound
    (get_column_cardinality : string -> nat)
    (get_composite_cardinality : list string -> nat)
    (columns : list string) (row_count max_composite_cols : nat)
    (hint_columns : list string) (uniqueness_threshold : Q) :
  let result := infer_primary_key_candidates get_column_cardinality
                  get_composite_cardinality columns row_count
                  max_composite_cols hint_columns uniqueness_threshold in
  Sorted ranked_before result /\
  Forall (fun k =>
      0 < row_count /\ kc_row_count k = row_count /\
      qualifies (distinct_count k) row_count uniqueness_threshold = true /\
      incl (kc_columns k) columns /\
      (hint_columns = [] -> exists c, kc_columns k = [c]) /\
      Forall (fun c => hint_columns = [] \/
                exists h, In h hint_columns /\ str_upper h = str_upper c)
        (kc_columns k))
    result.
Proof.
  intros result. unfold result, infer_primary_key_candidates.
  destruct (Nat.eqb_spec row_count 0) as [H0 | H0]; [split; constructor|].
  destruct (split_hint_columns columns hint_columns) as [valid invalid] eqn:Es.
  destruct (split_hint_columns_members columns hint_columns) as [Hv _].
  rewrite Es in Hv. simpl in Hv.
  match goal with
  | |- context [rank_candidates ?l] =>
      destruct (rank_candidates_sorted l) as [Hp Hs]; split; [exact Hs|];
      apply Forall_forall; intros k Hk;
      apply (Permutation_in _ Hp) in Hk; apply in_app_or in Hk
  end.
  destruct Hk as [Hk | Hk].
  - destruct hint_columns as [| h hs];
      rewrite find_single_column_keys_filter in Hk;
      apply in_map_iff in Hk as [c [<- Hc]]; apply filter_In in Hc as [Hc Hq];
      simpl; (split; [lia|]); (split; [reflexivity|]); (split; [exact Hq|]).
    + split; [intros a [<- | []]; exact Hc|].
      split; [intros _; exists c; reflexivity|].
      constructor; [left; reflexivity | constructor].
    + destruct (Hv c Hc) as [Hin Hh].
      split; [intros a [<- | []]; exact Hin|].
      split; [intros Hnil; discriminate|].
      constructor; [right; exact Hh | constructor].
  - destruct hint_columns as [| h hs]; [contradiction|].
    destruct valid as [| v vs]; [contradiction|].
    destruct (proj1 (Forall_forall _ _)
                (find_composite_keys_shape get_composite_cardinality (v :: vs)
                   row_count max_composite_cols uniqueness_threshold) k Hk)
      as [n [_ [_ [_ [Hi [_ [Hr [_ Hq]]]]]]]].
    split; [lia|]. split; [exact Hr|]. split; [exact Hq|].
    split; [intros a Ha; apply (Hv a (Hi a Ha))|].
    split; [intros Hnil; discriminate|].
    apply Forall_forall. intros a Ha. right. apply (Hv a (Hi a Ha)).
Qed.

(* SQL *)
Lemma Query_ind_nested (P : Query -> Prop)
  (H : forall ctes exprs from joins where_,
         Forall (fun cte => P (snd cte)) ctes ->
         P (QSelect ctes exprs from joins where_)) :
  forall q, P q.
Proof.
  fix F 1. intros [ctes exprs from joins where_]. apply H.
  induction ctes as [| c ctes IH]; constructor; [apply F | exact IH].
Qed.

Lemma map_tables_cte_aliases f q : cte_aliases (map_tables f q) = cte_aliases q.
Proof.
  induction q as [ctes exprs from joins where_ IH] using Query_ind_nested.
  simpl. induction ctes as [| [a b] ctes IHc]; simpl; [reflexivity|].
  inversion IH as [| ? ? Hb IH']; subst. simpl in Hb.
  rewrite Hb, IHc by exact IH'. reflexivity.
Qed.

Lemma map_tables_collect_cte_names f q :
  collect_cte_names (map_tables f q) = collect_cte_names q.
Proof. unfold collect_cte_names. now rewrite map_tables_cte_aliases. Qed.

Lemma map_tables_table_nodes f q : table_nodes (map_tables f q) = map f (table_nodes q).
Proof.
  induction q as [ctes exprs from joins where_ IH] using Query_ind_nested.
  simpl. rewrite !map_app. f_equal.
  - induction ctes as [| [a b] ctes IHc]; simpl; [reflexivity|].
    inversion IH as [| ? ? Hb IH']; subst. simpl in Hb.
    rewrite map_app, Hb, IHc by exact IH'. reflexivity.
  - f_equal; [destruct from; reflexivity|].
    rewrite !map_map. apply map_ext. intros [t on]. reflexivity.
Qed.


Lemma map_tables_id_on f q :
  (forall t, In t (table_nodes q) -> f t = t) -> map_tables f q = q.
Proof.
  induction q as [ctes exprs from joins where_ IH] using Query_ind_nested.
  simpl. intros Hf. f_equal.
  - clear - IH Hf. induction ctes as [| [a b] ctes IHc]; simpl; [reflexivity|].
    inversion IH as [| ? ? Hb IH']; subst. simpl in Hb.
    simpl in Hf. rewrite Hb, IHc; [reflexivity | exact IH' | |].
    + intros t Ht. apply Hf. rewrite <- app_assoc. apply in_or_app. right. exact Ht.
    + intros t Ht. apply Hf. apply in_or_app. left. apply in_or_app. left. exact Ht.
  - destruct from as [t|]; [|reflexivity]. simpl. f_equal. apply Hf.
    apply in_or_app. right. apply in_or_app. left. left. reflexivity.
  - clear IH. induction joins as [| [t on] joins IHj]; simpl; [reflexivity|].
    rewrite Hf, IHj; [reflexivity | |].
    + intros t' Ht'. apply Hf. simpl in Ht'. apply in_app_or in Ht' as [H | H].
      * apply in_or_app. left. exact H.
      * apply in_or_app. right. apply in_app_or in H as [H | H];
          apply in_or_app; [left; exact H | right; right; exact H].
    + apply in_or_app. right. apply in_or_app. right. left. reflexivity.
Qed.

Lemma case_insensitive_lookup_found key m v :
  case_insensitive_lookup key m = Some v -> exists k, dict_get k m = Some v.
Proof.
  rewrite case_insensitive_lookup_unfold.
  destruct (dict_get key m) eqn:E1; [intros H; inversion H; subst; eauto|].
  destruct (dict_get (str_lower key) m) eqn:E2; [intros H; inversion H; subst; eauto|].
  destruct (dict_get (str_upper key) m) eqn:E3; [intros H; inversion H; subst; eauto|].
  discriminate.
Qed.

Lemma logical_to_physical_values_split d key v p0 p1 p2 :
  case_insensitive_lookup key (build_logical_to_physical_mapping d) = Some v ->
  split_dot v = [p0; p1; p2] -> truthy p0 = true /\ truthy p1 = true.
Proof.
  intros Hl Hs. destruct (case_insensitive_lookup_found _ _ _ Hl) as [k Hk].
  destruct (insert_entries_sound _ _ _ _ _ Hk) as [H0 | [t [_ He]]];
    [discriminate|].
  destruct (table_physical_fqn t) as [f|] eqn:Ef; [|discriminate].
  inversion He; subst k f.
  destruct (table_physical_fqn_complete t v Ef)
    as [bt [_ [_ [Hdb [Hsch [Htbl ->]]]]]].
  pose proof Hs as Hs'.
  apply split_dot_three in Hs' as [Heq [H0 [H1 H2]]].
  assert (Hc : count_dots (database bt ++ "." ++ schema bt ++ "." ++ table bt) = 2).
  { rewrite Heq, !count_dots_app. simpl. lia. }
  rewrite !count_dots_app in Hc. simpl in Hc.
  rewrite split_dot_join in Hs by lia. inversion Hs; subst. auto.
Qed.

Lemma l2p_table_node_shape cte_names m t :
  l2p_table_node cte_names m t = t \/
  exists v p0 p1 p2,
    case_insensitive_lookup (t_this t) m = Some v /\ split_dot v = [p0; p1; p2] /\
    l2p_table_node cte_names m t =
      {| t_this := p2; t_db := p1; t_catalog := p0; t_alias := t_alias t |}.
Proof.
  unfold l2p_table_node.
  destruct (negb (truthy (t_this t)) || mem_str (t_this t) cte_names); [left; reflexivity|].
  destruct (is_already_qualified t); [left; reflexivity|].
  destruct (case_insensitive_lookup (t_this t) m) as [v|] eqn:E; [|left; reflexivity].
  destruct (truthy v); [|left; reflexivity].
  destruct (split_dot v) as [| p0 [| p1 [| p2 [| p3 ps]]]] eqn:Es;
    try (left; reflexivity).
  right. exists v, p0, p1, p2. auto.
Qed.

(** X15: the logical-to-physical table pass with the mapping built from a document is idempotent. *)
Theorem resolve_logical_to_physical_table_names_idempotent (d : Document) (q : Query) :
  let mapping := build_logical_to_physical_mapping d in
  resolve_logical_to_physical_table_names_ast
    (resolve_logical_to_physical_table_names_ast q mapping) mapping
  = resolve_logical_to_physical_table_names_ast q mapping.
Proof.
  intros mapping. unfold resolve_logical_to_physical_table_names_ast.
  rewrite map_tables_collect_cte_names.
  apply map_tables_id_on. rewrite map_tables_table_nodes. intros t Ht.
  apply in_map_iff in Ht as [t0 [<- _]].
  set (cte := collect_cte_names q).
  destruct (l2p_table_node_shape cte mapping t0)
    as [E | [v [p0 [p1 [p2 [Hl [Hs E]]]]]]]; rewrite E; [now rewrite E|].
  destruct (logical_to_physical_values_split _ _ _ _ _ _ Hl Hs) as [H0 H1].
  unfold l2p_table_node at 1. simpl.
  destruct (negb (truthy p2) || mem_str p2 cte); [reflexivity|].
  unfold is_already_qualified. simpl. rewrite H0, H1. reflexivity.
Qed.

Lemma physical_to_logical_values d k v :
  dict_get k (build_physical_to_logical_mapping d) = Some v ->
  exists t, In t (tables d) /\ name t = v.
Proof.
  intros H.
  destruct (insert_entries_sound _ _ _ _ _ H) as [H0 | [t [Ht He]]];
    [discriminate|].
  destruct (table_physical_fqn t) as [f|] eqn:Ef; [|discriminate].
  inversion He; subst. eauto.
Qed.

Lemma p2l_table_node_shape cte_names m t :
  p2l_table_node cte_names m t = t \/
  exists v, case_insensitive_lookup (build_fqn_from_table_node t) m = Some v /\
    p2l_table_node cte_names m t =
      {| t_this := v; t_db := ""; t_catalog := ""; t_alias := t_alias t |}.
Proof.
  unfold p2l_table_node.
  destruct (negb (truthy (t_this t)) || mem_str (t_this t) cte_names); [left; reflexivity|].
  destruct (negb (truthy (build_fqn_from_table_node t))); [left; reflexivity|].
  destruct (case_insensitive_lookup _ m) as [v|] eqn:E; [|left; reflexivity].
  destruct (truthy v); [|left; reflexivity].
  right. exists v. auto.
Qed.

(** X16: when no logical table name contains a dot, the physical-to-logical table pass with the reverse mapping built from a document is idempotent. *)
Theorem resolve_physical_to_logical_table_names_idempotent (d : Document) (q : Query) :
  (forall t, In t (tables d) -> count_dots (name t) = 0) ->
  let reverse_mapping := build_physical_to_logical_mapping d in
  resolve_physical_to_logical_table_names_ast
    (resolve_physical_to_logical_table_names_ast q reverse_mapping) reverse_mapping
  = resolve_physical_to_logical_table_names_ast q reverse_mapping.
Proof.
  intros Hd reverse_mapping. unfold resolve_physical_to_logical_table_names_ast.
  rewrite map_tables_collect_cte_names.
  apply map_tables_id_on. rewrite map_tables_table_nodes. intros t Ht.
  apply in_map_iff in Ht as [t0 [<- _]].
  set (cte := collect_cte_names q).
  destruct (p2l_table_node_shape cte reverse_mapping t0) as [E | [v [Hl E]]];
    rewrite E; [now rewrite E|].
  destruct (case_insensitive_lookup_found _ _ _ Hl) as [k Hk].
  destruct (physical_to_logical_values _ _ _ Hk) as [t1 [Ht1 <-]].
  apply p2l_table_node_partial_unmatched; simpl; [reflexivity | reflexivity |].
  apply Hd. exact Ht1.
Qed.




(** X20: [_resolve_sql] and [_translate_vqr_sql] return SQL the parser rejects unchanged. *)
Theorem callers_keep_unparsable_sql (parse_sql : string -> string + Query)
    (generate_sql : Query -> string) (d : Document) (sql e : string) :
  parse_sql sql = inl e ->
  resolve_sql parse_sql generate_sql d sql = sql /\
  translate_vqr_sql parse_sql generate_sql d sql = sql.
Proof.
  intros He. unfold resolve_sql, translate_vqr_sql,
    resolve_logical_to_physical_table_names,
    resolve_logical_to_physical_column_names,
    resolve_physical_to_logical_table_names,
    resolve_physical_to_logical_column_names.
  rewrite He. simpl. rewrite He.
  split; destruct (negb _); try reflexivity; destruct (nonempty _); reflexivity.
Qed.




Lemma infer_relationship_type_right_covered_witness :
  has_constraint_on_columns (get_all_constraint_sets customers_table)
    (lower_set ["customer_id"]) = true /\
  exists rel,
    infer_relationship_type orders_table customers_table ["customer_id"]
      ["customer_id"] = (relationship_type rel, PRelationship rel) /\
    left_table rel = name orders_table /\ right_table rel = name customers_table /\
    rel_name rel = name orders_table ++ "_TO_" ++ name customers_table /\
    relationship_columns rel =
      map (fun '(lc, rc) => {| left_column := lc; right_column := rc |})
        (combine ["customer_id"] ["customer_id"]) /\
    (relationship_type rel = "one_to_one" <->
     has_constraint_on_columns (get_all_constraint_sets orders_table)
       (lower_set ["customer_id"]) = true) /\
    (relationship_type rel = "many_to_one" <->
     has_constraint_on_columns (get_all_constraint_sets orders_table)
       (lower_set ["customer_id"]) = false).
Proof.
  split; [vm_compute; reflexivity|].
  apply infer_relationship_type_right_covered. vm_compute. reflexivity.
Defined.

Lemma infer_relationship_type_depends_on_column_sets_witness :
  fst (infer_relationship_type orders_table customers_table ["Customer_ID"]
         ["customer_id"]) =
  fst (infer_relationship_type orders_table customers_table
         ["customer_id"; "CUSTOMER_ID"] ["CUSTOMER_ID"]).
Proof.
  apply infer_relationship_type_depends_on_column_sets;
    intros c; vm_compute; intuition.
Defined.

Lemma filter_key_candidate_columns_null_rate_unavailable_witness :
  fst (filter_key_candidate_columns
         (fun col => get_null_percentage_of (Some (0%Z, 0%Z)))
         [order_date_column])
  = map cm_name (filter (fun c => (4 <=? key_candidate_score c)%Z)
                   [order_date_column]).
Proof.
  apply (filter_key_candidate_columns_null_rate_unavailable
           (fun _ => Some (0%Z, 0%Z))).
  intros c _. reflexivity.
Defined.

Lemma resolve_physical_to_logical_table_names_idempotent_witness :
  let reverse_mapping := build_physical_to_logical_mapping orders_doc in
  resolve_physical_to_logical_table_names_ast
    (resolve_physical_to_logical_table_names_ast qualified_physical_query
       reverse_mapping) reverse_mapping
  = resolve_physical_to_logical_table_names_ast qualified_physical_query
      reverse_mapping.
Proof.
  apply resolve_physical_to_logical_table_names_idempotent.
  intros t Ht. simpl in Ht. destruct Ht as [<- | [<- | []]]; reflexivity.
Defined.


Lemma callers_keep_unparsable_sql_witness :
  resolve_sql (fun _ => inl "syntax error") (fun _ => "") orders_doc "SELEC"
    = "SELEC" /\
  translate_vqr_sql (fun _ => inl "syntax error") (fun _ => "") orders_doc "SELEC"
    = "SELEC".
Proof.
  apply (callers_keep_unparsable_sql _ _ _ _ "syntax error"). reflexivity.
Defined.

